(** * FITS_tools.match_images: header projection and image matching

    A shallow embedding of [src/FITS_tools/match_images.py]
    ([project_to_header] and [match_fits]) and the properties of its
    orchestration logic: backend selection, temporary files, the shape
    check, the optional sigma cut and the shape of the returned tuple.

    An image has the element type of its file: pixel values are IEEE
    binary32 or binary64 numbers ([numpy.float32], [numpy.float64]), taken
    from the executable specification of floating-point arithmetic of the
    standard library, or integers of 8, 16, 32 or 64 bits.  The arithmetic
    of the sigma cut follows numpy's rules for the type of a result, as
    they were when the module was written (Python 2, on a 64-bit
    platform).  The FITS files live on a finite map from file names
    to contents; the reprojection backends and the numpy reductions are
    fields of an environment record, so every theorem holds for all their
    behaviours (including failures of the backends). *)

From Stdlib Require Import ZArith Bool Lia.
From Stdlib Require Import Floats.SpecFloat.
From stdpp Require Import gmap strings list.


(** ** IEEE 754 numbers: numpy.float32 and numpy.float64 *)

(** Predicates and comparisons of a number, whatever its format. *)
Module F64.

Definition t : Type := spec_float.

Definition zero : t := S754_zero false.
Definition nan : t := S754_nan.

(** [x == y], [x < y] and [x > y]: false as soon as one side is NaN. *)
Definition eqb : t -> t -> bool := SFeqb.
Definition ltb : t -> t -> bool := SFltb.
Definition gtb (x y : t) : bool := SFltb y x.

Definition is_nan (x : t) : bool :=
  match x with S754_nan => true | _ => false end.
Definition is_inf (x : t) : bool :=
  match x with S754_infinity _ => true | _ => false end.
Definition is_zero (x : t) : bool :=
  match x with S754_zero _ => true | _ => false end.
(** Neither NaN nor infinite. *)
Definition is_finite (x : t) : bool :=
  match x with S754_zero _ | S754_finite _ _ _ => true | _ => false end.

Definition sign (x : t) : bool :=
  match x with
  | S754_zero s | S754_infinity s | S754_finite s _ _ => s
  | S754_nan => false
  end.

End F64.

(** The two formats: binary32 and binary64. *)
Inductive ffmt : Type := B32 | B64.

Module Flt.

Definition prec (f : ffmt) : Z := match f with B32 => 24 | B64 => 53 end.
Definition emax (f : ffmt) : Z := match f with B32 => 128 | B64 => 1024 end.

Definition one (f : ffmt) : F64.t :=
  match f with
  | B32 => S754_finite false 8388608 (-23)
  | B64 => S754_finite false 4503599627370496 (-52)
  end.

Definition mul (f : ffmt) : F64.t -> F64.t -> F64.t := SFmul (prec f) (emax f).
Definition add (f : ffmt) : F64.t -> F64.t -> F64.t := SFadd (prec f) (emax f).
Definition sub (f : ffmt) : F64.t -> F64.t -> F64.t := SFsub (prec f) (emax f).
Definition div (f : ffmt) : F64.t -> F64.t -> F64.t := SFdiv (prec f) (emax f).
Definition sqrt (f : ffmt) : F64.t -> F64.t := SFsqrt (prec f) (emax f).

(** Conversion of a bool and of an integer, to the nearest number. *)
Definition of_bool (f : ffmt) (b : bool) : F64.t := if b then one f else F64.zero.
Definition of_Z (f : ffmt) (z : Z) : F64.t :=
  binary_normalize (prec f) (emax f) z 0 false.

(** A representable number of the format: canonical mantissa, exponent in
    range. *)
Definition valid (f : ffmt) : F64.t -> bool := valid_binary (prec f) (emax f).

(** Zero, a positive number whose exponent is not below the smallest one, or
    plus infinity. *)
Definition nonneg (f : ffmt) (x : F64.t) : bool :=
  match x with
  | S754_zero _ | S754_infinity false => true
  | S754_finite false _ e => (emin (prec f) (emax f) <=? e)%Z
  | _ => false
  end.

(** A number of format [f] taken to format [g]: itself when the formats
    are the same, else the nearest number of [g] (ties to even; from
    binary32 to binary64 nothing is lost). *)
Definition cast (f g : ffmt) (x : F64.t) : F64.t :=
  match f, g with
  | B32, B32 | B64, B64 => x
  | _, _ =>
      match x with
      | S754_finite s m e => binary_round (prec g) (emax g) s m e
      | _ => x
      end
  end.

(** The wider of two formats. *)
Definition wider (f g : ffmt) : ffmt :=
  match f, g with B32, B32 => B32 | _, _ => B64 end.

End Flt.

(** ** numpy.ndarray *)

Record ndarray (A : Type) : Type := mk_ndarray {
  shape : list nat;
  data : list A   (* the elements in C order *)
}.
Arguments mk_ndarray {A} _ _.
Arguments shape {A} _.
Arguments data {A} _.

(** The element types of a FITS image as pyfits reads it (BITPIX 8, 16, 32,
    64, -32 and -64). *)
Inductive dtype : Type := UInt8 | Int16 | Int32 | Int64 | Float32 | Float64.

(** One element: a floating-point number or an integer. *)
Inductive num : Type :=
  | Flt (x : F64.t)
  | Int (z : Z).

(** An image: an array with its element type.  [pyfits.getdata] gives the
    type of the file, a backend the type it computes in. *)
Record image : Type := mk_image {
  dtype_of : dtype;
  pixels :> ndarray num
}.

Module Dtype.

Definition float_of (d : dtype) : option ffmt :=
  match d with Float32 => Some B32 | Float64 => Some B64 | _ => None end.

(** The format of a floating-point type (binary64 for the others: what an
    integer is converted to when nothing else decides). *)
Definition fmt (d : dtype) : ffmt :=
  match d with Float32 => B32 | _ => B64 end.

Definition bits (d : dtype) : Z :=
  match d with
  | UInt8 => 8 | Int16 => 16 | Int32 | Float32 => 32 | Int64 | Float64 => 64
  end.

(** An integer brought back into the range of an integer type, as C
    arithmetic does. *)
Definition wrap (d : dtype) (z : Z) : Z :=
  match d with
  | UInt8 => (z mod 256)%Z
  | _ => ((z + 2 ^ (bits d - 1)) mod 2 ^ bits d - 2 ^ (bits d - 1))%Z
  end.

Definition in_range (d : dtype) (z : Z) : bool :=
  match d with
  | UInt8 => (0 <=? z)%Z && (z <? 256)%Z
  | _ => (- 2 ^ (bits d - 1) <=? z)%Z && (z <? 2 ^ (bits d - 1))%Z
  end.

(** [numpy.promote_types]: the type two arrays are computed in. *)
Definition promote (d1 d2 : dtype) : dtype :=
  match d1, d2 with
  | Float64, _ | _, Float64 => Float64
  | Float32, (Int32 | Int64) | (Int32 | Int64), Float32 => Float64
  | Float32, _ | _, Float32 => Float32
  | Int64, _ | _, Int64 => Int64
  | Int32, _ | _, Int32 => Int32
  | Int16, _ | _, Int16 => Int16
  | UInt8, UInt8 => UInt8
  end.

(** An element of an array of type [d] as a number of format [g]. *)
Definition to_float (d : dtype) (g : ffmt) (n : num) : F64.t :=
  match n with
  | Flt x => Flt.cast (fmt d) g x
  | Int z => Flt.of_Z g z
  end.

Definition to_Z (n : num) : Z :=
  match n with Int z => z | Flt _ => 0 end.

(** An element an array of type [d] can hold. *)
Definition valid (d : dtype) (n : num) : bool :=
  match float_of d, n with
  | Some f, Flt x => Flt.valid f x
  | None, Int z => in_range d z
  | _, _ => false
  end.

End Dtype.

(** A numpy scalar of a floating-point type, as [a.std()] and
    [a.std() * sigma_cut] are. *)
Record scalar : Type := mk_scalar {
  sc_fmt : ffmt;
  sc_val : F64.t
}.

(** [a.squeeze()]: the axes of length one are dropped, the elements stay. *)
Definition squeeze (a : image) : image :=
  mk_image (dtype_of a) (mk_ndarray (filter (λ n, n ≠ 1) (shape a)) (data a)).

(** An element-wise operation with a scalar, and with an array of the same
    shape. *)
Definition nd_map {A B} (f : A -> B) (a : ndarray A) : ndarray B :=
  mk_ndarray (shape a) (f <$> data a).
Definition nd_zip_with {A B C} (f : A -> B -> C)
    (a : ndarray A) (b : ndarray B) : ndarray C :=
  mk_ndarray (shape a) (zip_with f (data a) (data b)).

(** 3.4e38 as a double: scalars beyond it do not count as fitting
    [float32]. *)
Definition float32_limit : F64.t := Flt.of_Z B64 (34 * 10 ^ 37).

(** Whether a double fits [float32] by its value (any NaN or infinity
    does). *)
Definition fits_float32 (t : F64.t) : bool :=
  negb (F64.is_finite t)
  || (F64.ltb (SFopp float32_limit) t && F64.ltb t float32_limit).

(** The format in which [a > t] compares the elements of an array of type
    [d] with a scalar [t].  A scalar does not widen an array of floats
    when its value fits the type of the array; an array of integers is
    taken to the type of the scalar (to binary64 when that is too small for
    the integers). *)
Definition compare_fmt (d : dtype) (t : scalar) : ffmt :=
  match d with
  | Float64 => B64
  | Float32 =>
      match sc_fmt t with
      | B32 => B32
      | B64 => if fits_float32 (sc_val t) then B32 else B64
      end
  | UInt8 | Int16 => sc_fmt t
  | Int32 | Int64 => B64
  end.

(** One element of [a > t]. *)
Definition above (d : dtype) (t : scalar) (x : num) : bool :=
  let g := compare_fmt d t in
  F64.gtb (Dtype.to_float d g x) (Flt.cast (sc_fmt t) g (sc_val t)).

(** One element of [a * m] for a boolean array [m]: True is 1 and False
    is 0, in the type of [a]. *)
Definition mul_bool (d : dtype) (x : num) (b : bool) : num :=
  match x with
  | Flt x => Flt (Flt.mul (Dtype.fmt d) x (Flt.of_bool (Dtype.fmt d) b))
  | Int z => Int (Dtype.wrap d (z * (if b then 1 else 0))%Z)
  end.

Module Num.

(** One element of [a == b] for two arrays of one type. *)
Definition eqb (x y : num) : bool :=
  match x, y with
  | Flt x, Flt y => F64.eqb x y
  | Int a, Int b => (a =? b)%Z
  | _, _ => false
  end.

Definition is_nan (x : num) : bool :=
  match x with Flt x => F64.is_nan x | Int _ => false end.
(** Neither NaN nor infinite: every integer, and the floats that are. *)
Definition is_finite (x : num) : bool :=
  match x with Flt x => F64.is_finite x | Int _ => true end.
Definition is_zero (x : num) : bool :=
  match x with Flt x => F64.is_zero x | Int z => (z =? 0)%Z end.
(** Below zero. *)
Definition is_negative (x : num) : bool :=
  match x with Flt x => F64.ltb x F64.zero | Int z => (z <? 0)%Z end.

End Num.

(** [a > t] for a scalar [t]. *)
Definition nd_gt (a : image) (t : scalar) : ndarray bool :=
  nd_map (above (dtype_of a) t) a.
(** [a * m] for a boolean array [m]. *)
Definition nd_mul_mask (a : image) (m : ndarray bool) : image :=
  mk_image (dtype_of a) (nd_zip_with (mul_bool (dtype_of a)) a m).
(** [a == b]. *)
Definition nd_eq (a b : image) : ndarray bool :=
  nd_zip_with Num.eqb a b.
(** [m * n] for two boolean arrays. *)
Definition nd_and (m n : ndarray bool) : ndarray bool :=
  nd_zip_with andb m n.

(** [a[m]] for a boolean array [m]: the selected elements, in order. *)
Fixpoint select {A} (l : list A) (m : list bool) : list A :=
  match l, m with
  | x :: l', b :: m' => if b then x :: select l' m' else select l' m'
  | _, _ => []
  end.
Definition nd_select {A} (a : ndarray A) (m : ndarray bool) : list A :=
  select (data a) (data m).

(** Each element is one the type of the array can hold. *)
Definition valid_image (a : image) : Prop :=
  Forall (λ x, Dtype.valid (dtype_of a) x = true) (data a).

(** The pixel of [image * (image > t)], as numpy computes it. *)
Definition mask_pixel (d : dtype) (t : scalar) (x : num) : num :=
  mul_bool d x (above d t x).

(** The zero a pixel is replaced by: of its type, and of its sign. *)
Definition zero_like (x : num) : num :=
  match x with
  | Flt x => Flt (S754_zero (F64.sign x))
  | Int _ => Int 0
  end.

(** A pixel after a cut at threshold [t], in the words of the
    specification: kept when strictly above the threshold, else zeroed. *)
Definition cut_pixel (d : dtype) (t : scalar) (x : num) : num :=
  if above d t x then x else zero_like x.

(** The products of two arrays, element by element, in the words of the
    specification: one product for each position where neither element is
    NaN, in the type the two arrays promote to. *)
Definition float_product (g : ffmt) (d1 d2 : dtype) (x y : num) : F64.t :=
  Flt.mul g (Dtype.to_float d1 g x) (Dtype.to_float d2 g y).
Definition int_product (d : dtype) (x y : num) : Z :=
  Dtype.wrap d (Dtype.to_Z x * Dtype.to_Z y)%Z.
Definition both_numbers (p : num * num) : bool :=
  negb (Num.is_nan p.1) && negb (Num.is_nan p.2).
Definition products_at_positions {A} (mul : num -> num -> A)
    (a b : image) : list A :=
  (λ p, mul p.1 p.2) <$> List.filter both_numbers (zip (data a) (data b)).

(** ** Headers, files and the outside world *)

(** A [pyfits.Header]: its cards, keyword and value. *)
Definition Header : Type := list (string * string).

(** Keyword options a backend takes, name and value. *)
Definition Options : Type := list (string * string).

Inductive file : Type :=
  | FitsFile (hdr : Header) (img : image)
  | TextFile (txt : string)
  | EmptyFile.

Inductive exn : Type :=
  | ValueError (msg : string)
  | UnboundLocalError (name : string)
  | OverflowError (msg : string)
  | LibraryError (e : string).   (* raised inside pyfits, montage or hcongrid *)

Inductive result (A : Type) : Type :=
  | Ok (a : A)
  | Raise (e : exn).
Arguments Ok {A} _.
Arguments Raise {A} _.

(** [sigma_cut]: a bool, an int or a float. *)
Inductive sigma : Type :=
  | SigmaBool (b : bool)
  | SigmaInt (z : Z)
  | SigmaFloat (f : F64.t).

(** What the calls leave behind, in the order they happen. *)
Inductive event : Type :=
  | CallProject (fitsfile : string) (header : Header)
      (use_montage quiet : bool) (kwargs : Options)
  | CallToTxtFile (header : Header) (name : string)
  | CallMontage (infile outfile hdrfile : string)
      (exact_size silent_cleanup : bool)
  | CallGetData (name : string)
  | CallGetHeader (name : string)
  | CallHcongrid (img : image) (hdr_in hdr_out : Header) (kwargs : Options)
  | PrintCutFailed (sigma_cut : sigma).

Record state : Type := mk_state {
  disk : gmap string file;
  next_tmp : nat;          (* the temporary files made so far *)
  open_tmps : list nat;    (* the temporary files not closed yet *)
  trace : list event
}.

(** The environment of a run: which backends can be imported
    ([import montage], [from hcongrid import hcongrid]), and what the code
    outside this module does: the name [tempfile] gives a temporary file,
    [Header.toTxtFile], [montage.wrappers.reproject], [hcongrid],
    [flatten_header] of [strip_headers], and the reductions [std] and [sum]
    of numpy.  They are parameters of the program; a library call fails
    with [inl]. *)
Record Env : Type := mk_Env {
  montageOK : bool;
  hcongridOK : bool;
  tmp_name : nat -> string;
  toTxtFile : Header -> string -> gmap string file -> string + gmap string file;
  montage_reproject : string -> string -> string -> bool -> bool ->
                      gmap string file -> string + gmap string file;
  hcongrid : image -> Header -> Header -> Options -> string + image;
  flatten_header : Header -> Header;   (* strip_headers.flatten_header *)
  np_std : ffmt -> list F64.t -> F64.t;   (* of an array of that format *)
  np_sum : ffmt -> list F64.t -> F64.t
}.

(** ** The monad of the embedding: state and exceptions *)

Definition M (A : Type) : Type := state -> result A * state.

Definition ret {A} (a : A) : M A := λ s, (Ok a, s).
Definition raise {A} (e : exn) : M A := λ s, (Raise e, s).
Definition bind {A B} (m : M A) (k : A -> M B) : M B :=
  λ s, match m s with
       | (Ok a, s') => k a s'
       | (Raise e, s') => (Raise e, s')
       end.

Notation "'let*' x ':=' m 'in' k" := (bind m (λ x, k))
  (at level 10, x name, m at level 100, k at level 200, only parsing).
Notation "m >> k" := (bind m (λ _, k))
  (at level 100, k at level 200, right associativity, only parsing).

Definition log (e : event) : M unit :=
  λ s, (Ok tt, mk_state (disk s) (next_tmp s) (open_tmps s) (trace s ++ [e])).

Definition set_disk (d : gmap string file) (s : state) : state :=
  mk_state d (next_tmp s) (open_tmps s) (trace s).

(** A library call that works on the disk. *)
Definition on_disk (f : gmap string file -> string + gmap string file) : M unit :=
  λ s, match f (disk s) with
       | inl e => (Raise (LibraryError e), s)
       | inr d => (Ok tt, set_disk d s)
       end.

Definition lift_lib {A} (r : string + A) : M A :=
  match r with
  | inl e => raise (LibraryError e)
  | inr a => ret a
  end.

(** The keyword arguments [match_fits] hands on to [project_to_header]:
    [use_montage] and [quiet] bind to its parameters of that name, with
    their defaults when absent; the others are its [**kwargs]. *)
Record kwargs : Type := mk_kwargs {
  kw_use_montage : option bool;
  kw_quiet : option bool;
  kw_rest : Options
}.

(** [if sigma_cut:] and [x * sigma_cut]. *)
Definition truthy (sigma_cut : sigma) : bool :=
  match sigma_cut with
  | SigmaBool b => b
  | SigmaInt z => negb (z =? 0)%Z
  | SigmaFloat f => negb (F64.eqb f F64.zero)
  end.
(** The value of [sigma_cut] as a double. *)
Definition level (sigma_cut : sigma) : F64.t :=
  match sigma_cut with
  | SigmaBool b => Flt.of_bool B64 b
  | SigmaInt z => Flt.of_Z B64 z
  | SigmaFloat f => f
  end.
(** An int too large for a double. *)
Definition overflows (sigma_cut : sigma) : bool :=
  match sigma_cut with
  | SigmaInt z => F64.is_inf (Flt.of_Z B64 z)
  | _ => false
  end.

(** [s * sigma_cut] for a numpy scalar [s]: with a bool the product has
    the type of [s]; an int or a float makes it a double, and an int that
    no double can hold raises OverflowError. *)
Definition times_sigma (s : scalar) (sigma_cut : sigma) : result scalar :=
  match sigma_cut with
  | SigmaBool b =>
      Ok (mk_scalar (sc_fmt s)
            (Flt.mul (sc_fmt s) (sc_val s) (Flt.of_bool (sc_fmt s) b)))
  | _ =>
      if overflows sigma_cut
      then Raise (OverflowError "long int too large to convert to float")
      else Ok (mk_scalar B64
                 (Flt.mul B64 (Flt.cast (sc_fmt s) B64 (sc_val s))
                    (level sigma_cut)))
  end.

(** The returned tuple. *)
Inductive returns : Type :=
  | Pair (image1 image2 : image)
  | Triple (image1 image2 : image) (header : Header).

Section Program.

Variable env : Env.

(** [tempfile.NamedTemporaryFile()]: a new empty file, open until closed. *)
Definition NamedTemporaryFile : M nat :=
  λ s, let id := next_tmp s in
       (Ok id, mk_state (<[tmp_name env id := EmptyFile]> (disk s))
                        (S id) (id :: open_tmps s) (trace s)).

(** [f.close()] of a temporary file: closed and deleted. *)
Definition close (id : nat) : M unit :=
  λ s, (Ok tt, mk_state (delete (tmp_name env id) (disk s)) (next_tmp s)
                        (filter (λ i, i ≠ id) (open_tmps s)) (trace s)).

(** What CPython does once the frame of a call that failed is released (the
    exception caught and its traceback dropped): the temporary files the
    frame still held, those made since [since] and not closed, lose their
    last reference and are closed and deleted.  No line of the module does
    this; it happens after the exception has left it. *)
Definition finalize (since : nat) (s : state) : state :=
  mk_state
    (foldr (λ i d, delete (tmp_name env i) d) (disk s)
       (filter (λ i, since ≤ i) (open_tmps s)))
    (next_tmp s)
    (filter (λ i, i < since) (open_tmps s))
    (trace s).

Definition pyfits_getdata (name : string) : M image :=
  log (CallGetData name) >>
  λ s, match disk s !! name with
       | Some (FitsFile _ img) => (Ok img, s)
       | _ => (Raise (LibraryError "IOError"), s)
       end.

Definition pyfits_getheader (name : string) : M Header :=
  log (CallGetHeader name) >>
  λ s, match disk s !! name with
       | Some (FitsFile hdr _) => (Ok hdr, s)
       | _ => (Raise (LibraryError "IOError"), s)
       end.

(** Lines 45-55: the montage branch. *)
Definition montage_branch (fitsfile : string) (header : Header)
    (quiet : bool) : M image :=
  let* temp_headerfile := NamedTemporaryFile in
  log (CallToTxtFile header (tmp_name env temp_headerfile)) >>
  on_disk (toTxtFile env header (tmp_name env temp_headerfile)) >>
  let* outfile := NamedTemporaryFile in
  log (CallMontage fitsfile (tmp_name env outfile)
         (tmp_name env temp_headerfile) true quiet) >>
  on_disk (montage_reproject env fitsfile (tmp_name env outfile)
             (tmp_name env temp_headerfile) true quiet) >>
  let* image := pyfits_getdata (tmp_name env outfile) in
  close outfile >>
  close temp_headerfile >>
  ret image.

(** Lines 58-61: the hcongrid branch. *)
Definition hcongrid_branch (fitsfile : string) (header : Header)
    (kwargs : Options) : M image :=
  let* d := pyfits_getdata fitsfile in
  let* h := pyfits_getheader fitsfile in
  log (CallHcongrid (squeeze d) (flatten_header env h) header kwargs) >>
  lift_lib (hcongrid env (squeeze d) (flatten_header env h) header kwargs).

Definition project_to_header (fitsfile : string) (header : Header)
    (use_montage quiet : bool) (kwargs : Options) : M image :=
  log (CallProject fitsfile header use_montage quiet kwargs) >>
  if montageOK env && use_montage then
    montage_branch fitsfile header quiet
  else if hcongridOK env then
    hcongrid_branch fitsfile header kwargs
  else
    (* [return image] with [image] never assigned *)
    raise (UnboundLocalError "image").

(** *** match_fits *)

(** [project_to_header(fitsfile, header, **kwargs)], as [match_fits] calls
    it. *)
Definition project (fitsfile : string) (header : Header) (kw : kwargs)
    : M image :=
  project_to_header fitsfile header
    (default true (kw_use_montage kw)) (default true (kw_quiet kw))
    (kw_rest kw).

(** Lines 90-94: the working header and image 1. *)
Definition resolve_image1 (fitsfile1 : string) (header : option Header)
    (kw : kwargs) : M (Header * image) :=
  match header with
  | None =>
      let* h := pyfits_getheader fitsfile1 in
      let* d := pyfits_getdata fitsfile1 in
      ret (flatten_header env h, squeeze d)
  | Some header =>
      (* project image 1 to input header coordinates *)
      let* image1 := project fitsfile1 header kw in
      ret (header, image1)
  end.

(** Lines 90-97: the working header and the two images. *)
Definition resolve_images (fitsfile1 fitsfile2 : string)
    (header : option Header) (kw : kwargs) : M (Header * image * image) :=
  let* hi := resolve_image1 fitsfile1 header kw in
  (* project image 2 to image 1 coordinates *)
  let* image2_projected := project fitsfile2 hi.1 kw in
  ret (hi.1, hi.2, image2_projected).

(** [image.std()]: a scalar of the type of the image, a double for an
    image of integers. *)
Definition std_of (img : image) : scalar :=
  let f := Dtype.fmt (dtype_of img) in
  mk_scalar f (np_std env f (Dtype.to_float (dtype_of img) f <$> data img)).

(** [image * (image > t)] *)
Definition threshold_at (img : image) (t : scalar) : image :=
  nd_mul_mask img (nd_gt img t).

(** [image * (image > image.std() * sigma_cut)] *)
Definition threshold (img : image) (sigma_cut : sigma) : M image :=
  match times_sigma (std_of img) sigma_cut with
  | Ok t => ret (threshold_at img t)
  | Raise e => raise e
  end.

(** [a.sum()] for an array of integers of type [d]: exact, in 64 bits
    (unsigned for [uint8]). *)
Definition sum_int (d : dtype) (l : list Z) : Z :=
  match d with
  | UInt8 => (foldr Z.add 0 l mod 2 ^ 64)%Z
  | _ => Dtype.wrap Int64 (foldr Z.add 0%Z l)
  end.

(** [corr_image1[OK] * corr_image2[OK]] with
    [OK = (corr_image1 == corr_image1) * (corr_image2 == corr_image2)] *)
Definition overlap_products {A} (mul : num -> num -> A)
    (corr_image1 corr_image2 : image) : list A :=
  let OK := nd_and (nd_eq corr_image1 corr_image1)
                   (nd_eq corr_image2 corr_image2) in
  zip_with mul (nd_select corr_image1 OK) (nd_select corr_image2 OK).

(** [(corr_image1[OK] * corr_image2[OK]).sum() == 0] *)
Definition overlap_is_zero (corr_image1 corr_image2 : image) : bool :=
  let d1 := dtype_of corr_image1 in
  let d2 := dtype_of corr_image2 in
  let d := Dtype.promote d1 d2 in
  match Dtype.float_of d with
  | Some g =>
      F64.eqb (np_sum env g
                 (overlap_products (float_product g d1 d2)
                    corr_image1 corr_image2)) F64.zero
  | None =>
      (sum_int d (overlap_products (int_product d) corr_image1 corr_image2)
       =? 0)%Z
  end.

(** Lines 102-112. *)
Definition apply_sigma_cut (image1 image2_projected : image)
    (sigma_cut : sigma) : M (image * image) :=
  if truthy sigma_cut then
    let* corr_image1 := threshold image1 sigma_cut in
    let* corr_image2 := threshold image2_projected sigma_cut in
    if overlap_is_zero corr_image1 corr_image2 then
      log (PrintCutFailed sigma_cut) >>
      ret (image1, image2_projected)
    else
      ret (corr_image1, corr_image2)
  else
    ret (image1, image2_projected).

Definition match_fits (fitsfile1 fitsfile2 : string)
    (header : option Header) (sigma_cut : sigma) (return_header : bool)
    (kw : kwargs) : M returns :=
  let* r := resolve_images fitsfile1 fitsfile2 header kw in
  let '(header, image1, image2_projected) := r in
  if decide (shape image1 ≠ shape image2_projected) then
    raise (ValueError "Failed to reproject images to same shape.")
  else
    let* corr := apply_sigma_cut image1 image2_projected sigma_cut in
    if return_header then ret (Triple corr.1 corr.2 header)
    else ret (Pair corr.1 corr.2).

End Program.


(** ** Observations on a run *)

(** The events a run from [s] to [s'] has added. *)
Definition events_since (s s' : state) : list event :=
  drop (length (trace s)) (trace s').

Definition is_project_call (e : event) : bool :=
  match e with CallProject _ _ _ _ _ => true | _ => false end.
Definition is_montage_call (e : event) : bool :=
  match e with CallMontage _ _ _ _ _ | CallToTxtFile _ _ => true | _ => false end.
Definition is_hcongrid_call (e : event) : bool :=
  match e with CallHcongrid _ _ _ _ => true | _ => false end.

Definition is_print (e : event) : bool :=
  match e with PrintCutFailed _ => true | _ => false end.

(** The calls of [project_to_header] among some events. *)
Definition project_calls (evs : list event) : list event :=
  List.filter is_project_call evs.

Definition arity (r : returns) : nat :=
  match r with Pair _ _ => 2 | Triple _ _ _ => 3 end.
Definition returned_images (r : returns) : image * image :=
  match r with Pair a b | Triple a b _ => (a, b) end.
Definition returned_header (r : returns) : option Header :=
  match r with Pair _ _ => None | Triple _ _ h => Some h end.

(** Every open temporary file was made before. *)
Definition wf_state (s : state) : Prop :=
  Forall (λ i, i < next_tmp s) (open_tmps s).

(** ** What the theorems need of numpy's reductions

    Facts that hold whatever the order in which [sum] adds: zeros add up
    to zero; zeros and one other number add up to that number; numbers
    that are not negative and not all zero do not add up to zero; the
    standard deviation of data with a NaN or an infinity in it is NaN; and
    a standard deviation is never negative. *)
Record numpy_laws (env : Env) : Prop := mk_numpy_laws {
  np_sum_zeros : ∀ (g : ffmt) (l : list F64.t),
    Forall (λ x, F64.is_zero x = true) l →
    F64.is_zero (np_sum env g l) = true;
  np_sum_single : ∀ (g : ffmt) (l1 l2 : list F64.t) (p : F64.t),
    Forall (λ x, F64.is_zero x = true) l1 →
    Forall (λ x, F64.is_zero x = true) l2 →
    F64.is_zero p = false →
    np_sum env g (l1 ++ p :: l2) = p;
  np_sum_pos : ∀ (g : ffmt) (l : list F64.t),
    Forall (λ x, Flt.nonneg g x = true) l →
    Exists (λ x, F64.is_zero x = false) l →
    F64.eqb (np_sum env g l) F64.zero = false;
  np_std_nonfinite : ∀ (g : ffmt) (l : list F64.t),
    Exists (λ x, F64.is_finite x = false) l →
    np_std env g l = F64.nan;
  np_std_not_neg : ∀ (g : ffmt) (l : list F64.t),
    F64.ltb (np_std env g l) F64.zero = false
}.

(** ** A model of the reductions, for running the program *)

Module Numpy.

(** [a.sum()], adding from the left. *)
Definition sum (g : ffmt) (l : list F64.t) : F64.t :=
  fold_left (Flt.add g) l F64.zero.

Definition count (g : ffmt) (l : list F64.t) : F64.t :=
  Flt.of_Z g (Z.of_nat (length l)).

Definition mean (g : ffmt) (l : list F64.t) : F64.t :=
  Flt.div g (sum g l) (count g l).

(** [a.std()]: the square root of the mean of the squared deviations. *)
Definition std (g : ffmt) (l : list F64.t) : F64.t :=
  let m := mean g l in
  let dev := (λ x, let d := Flt.sub g x m in Flt.mul g d d) <$> l in
  Flt.sqrt g (Flt.div g (sum g dev) (count g l)).

(** NaN, or the infinity of sign [s]: what a sum is stuck at once it has
    met that infinity. *)
Definition absorbed (s : bool) (x : F64.t) : Prop :=
  x = F64.nan ∨ x = S754_infinity s.

End Numpy.

(** ** A small world, for running the program *)

Module Demo.

Definition f (z : Z) : F64.t := Flt.of_Z B64 z.
Definition f32 (z : Z) : F64.t := Flt.of_Z B32 z.

(** An image of doubles, of floats, of 16-bit integers. *)
Definition float64 (sh : list nat) (l : list F64.t) : image :=
  mk_image Float64 (mk_ndarray sh (Flt <$> l)).
Definition float32 (sh : list nat) (l : list F64.t) : image :=
  mk_image Float32 (mk_ndarray sh (Flt <$> l)).
Definition int16 (sh : list nat) (l : list Z) : image :=
  mk_image Int16 (mk_ndarray sh (Int <$> l)).

Definition hdr_a : Header := [("NAXIS", "3"); ("CTYPE1", "RA---TAN"); ("HISTORY", "x")].
Definition hdr_b : Header := [("NAXIS", "2"); ("CTYPE1", "GLON-CAR")].
Definition hdr_t : Header := [("NAXIS", "2"); ("CTYPE1", "RA---SIN")].

Definition img_a : image := float64 [1; 2; 2] [f 1; f 2; f 3; f 4].
Definition img_b : image := float64 [2; 2] [f 4; f 3; f 2; f 1].
Definition img_c : image := float64 [2; 2] [f 0; f 0; f 0; f 5].
Definition img_d : image := float64 [2; 2] [f 5; f 0; f 0; f 0].
Definition img_e : image := float64 [2; 2] [f 0; f 0; f 5; f 5].
Definition img_l : image := float64 [4] [f 1; f 2; f 3; f 4].
Definition img_p : image := float64 [2; 2] [f 1; f 4; f 1; f 1].
Definition img_n : image := float64 [2; 2] [f 1; f (-1); f 3; f (-3)].

Definition disk0 : gmap string file :=
  list_to_map [("a.fits", FitsFile hdr_a img_a); ("b.fits", FitsFile hdr_b img_b);
               ("c.fits", FitsFile hdr_b img_c); ("d.fits", FitsFile hdr_b img_d);
               ("e.fits", FitsFile hdr_b img_e); ("l.fits", FitsFile hdr_b img_l);
               ("p.fits", FitsFile hdr_b img_p); ("n.fits", FitsFile hdr_b img_n)].

Definition s0 : state := mk_state disk0 0 [] [].

Definition name_of (n : nat) : string :=
  "/tmp/tmp" +:+ String (Ascii.ascii_of_nat (48 + n)) "".

Definition write_header (h : Header) (name : string) (d : gmap string file)
    : string + gmap string file :=
  inr (<[name := TextFile (String.concat " " (fst <$> h))]> d).

(** A backend that copies the image of the input, squeezed, to the output. *)
Definition copy_reproject (infile outfile hdrfile : string)
    (exact_size silent_cleanup : bool) (d : gmap string file)
    : string + gmap string file :=
  match d !! infile with
  | Some (FitsFile h img) => inr (<[outfile := FitsFile h (squeeze img)]> d)
  | _ => inl "MontageError"
  end.

(** A backend that fails. *)
Definition failing_reproject (infile outfile hdrfile : string)
    (exact_size silent_cleanup : bool) (d : gmap string file)
    : string + gmap string file :=
  inl "MontageError".

Definition id_hcongrid (img : image) (h1 h2 : Header) (kw : Options)
    : string + image :=
  inr img.

Definition drop_history (h : Header) : Header :=
  List.filter (λ c, negb (String.eqb c.1 "HISTORY")) h.

(** Both backends there. *)
Definition env_both : Env :=
  mk_Env true true name_of write_header copy_reproject id_hcongrid
         drop_history Numpy.std Numpy.sum.
(** Only hcongrid. *)
Definition env_hcongrid : Env :=
  mk_Env false true name_of write_header copy_reproject id_hcongrid
         drop_history Numpy.std Numpy.sum.
(** Only montage. *)
Definition env_montage : Env :=
  mk_Env true false name_of write_header copy_reproject id_hcongrid
         drop_history Numpy.std Numpy.sum.
(** Montage there, and failing on every file. *)
Definition env_broken : Env :=
  mk_Env true true name_of write_header failing_reproject id_hcongrid
         drop_history Numpy.std Numpy.sum.

Definition kw0 : kwargs := mk_kwargs None None [].
Definition kw_h : kwargs := mk_kwargs (Some false) None [("order", "1")].

(** An image with a blank pixel, an image of floats, two of 16-bit
    integers, and a disk that has them. *)
Definition img_k : image := float64 [2; 2] [f 1; S754_nan; f 3; f 4].
Definition img_g : image := float32 [2; 2] [f32 1; f32 2; f32 3; f32 4].
Definition img_i : image := int16 [2; 2] [200; 168; 184; 184]%Z.
Definition img_j : image := int16 [2; 2] [200; 152; 0; 0]%Z.
Definition s_k : state :=
  mk_state (<["k.fits" := FitsFile hdr_b img_k]>
              (<["g.fits" := FitsFile hdr_b img_g]>
                 (<["i.fits" := FitsFile hdr_b img_i]>
                    (<["j.fits" := FitsFile hdr_b img_j]> disk0)))) 0 [] [].

(** A double just below 1: as a float it is 1. *)
Definition below_one : F64.t := S754_finite false 9007199246352384 (-53).

End Demo.

(** ** Stepping through a run in a proof *)

(** Unfold the program down to the state it passes along. *)
Ltac unfold_run :=
  unfold match_fits, resolve_images, resolve_image1, apply_sigma_cut, project,
    project_to_header, montage_branch, hcongrid_branch, pyfits_getdata,
    pyfits_getheader, NamedTemporaryFile, close, on_disk, lift_lib, log,
    set_disk, bind, ret, raise in *.

(** Take every case of the library calls and tests met on the way. *)
Ltac step_run := repeat (case_match; simplify_eq/=).


(** * Proofs *)

(** ** Floating-point arithmetic *)

Section F64_facts.

Context {f : ffmt}.

Implicit Types x y : F64.t.

Lemma pos_mul_pow52 (m : positive) :
  Pos.mul m 4503599627370496%positive = Pos.iter xO m 52%positive.
Proof. rewrite Pos.mul_comm. lazy [Pos.mul Pos.iter]. reflexivity. Qed.

Lemma pos_mul_pow23 (m : positive) :
  Pos.mul m 8388608%positive = Pos.iter xO m 23%positive.
Proof. rewrite Pos.mul_comm. lazy [Pos.mul Pos.iter]. reflexivity. Qed.

Lemma digits2_pos_shift52 (m : positive) :
  Z.pos (digits2_pos (Pos.iter xO m 52%positive))
  = (Z.pos (digits2_pos m) + 52)%Z.
Proof.
  lazy [Pos.iter]. cbn [digits2_pos]. rewrite !Pos2Z.inj_succ. lia.
Qed.

Lemma digits2_pos_shift23 (m : positive) :
  Z.pos (digits2_pos (Pos.iter xO m 23%positive))
  = (Z.pos (digits2_pos m) + 23)%Z.
Proof.
  lazy [Pos.iter]. cbn [digits2_pos]. rewrite !Pos2Z.inj_succ. lia.
Qed.

(** Multiplying a representable number by 1.0 is exact. *)
Lemma F64_mul_one_finite (s : bool) (m : positive) (e : Z) :
  bounded (Flt.prec B64) (Flt.emax B64) m e = true →
  Flt.mul B64 (S754_finite s m e) (Flt.one B64) = S754_finite s m e.
Proof.
  unfold bounded, canonical_mantissa. intros [Hc He]%andb_prop.
  apply Z.eqb_eq in Hc.
  unfold Flt.mul, Flt.one, SFmul, binary_round_aux.
  rewrite xorb_false_r, pos_mul_pow52.
  unfold shr_fexp at 1. unfold Zdigits2 at 1.
  rewrite digits2_pos_shift52.
  replace (Z.pos (digits2_pos m) + 52 + (e + -52))%Z
    with (Z.pos (digits2_pos m) + e)%Z by lia.
  rewrite Hc.
  replace (e - (e + -52))%Z with 52%Z by lia.
  lazy [Pos.iter].
  cbn [shr shr_record_of_loc SpecFloat.iter_pos shr_1 shr_m shr_r shr_s orb
       loc_of_shr_record round_nearest_even].
  replace (e + -52 + 52)%Z with e by lia.
  unfold shr_fexp, Zdigits2. rewrite Hc, Z.sub_diag.
  cbn [shr shr_record_of_loc shr_m].
  now rewrite He.
Qed.

Lemma F32_mul_one_finite (s : bool) (m : positive) (e : Z) :
  bounded (Flt.prec B32) (Flt.emax B32) m e = true →
  Flt.mul B32 (S754_finite s m e) (Flt.one B32) = S754_finite s m e.
Proof.
  unfold bounded, canonical_mantissa. intros [Hc He]%andb_prop.
  apply Z.eqb_eq in Hc.
  unfold Flt.mul, Flt.one, SFmul, binary_round_aux.
  rewrite xorb_false_r, pos_mul_pow23.
  unfold shr_fexp at 1. unfold Zdigits2 at 1.
  rewrite digits2_pos_shift23.
  replace (Z.pos (digits2_pos m) + 23 + (e + -23))%Z
    with (Z.pos (digits2_pos m) + e)%Z by lia.
  rewrite Hc.
  replace (e - (e + -23))%Z with 23%Z by lia.
  lazy [Pos.iter].
  cbn [shr shr_record_of_loc SpecFloat.iter_pos shr_1 shr_m shr_r shr_s orb
       loc_of_shr_record round_nearest_even].
  replace (e + -23 + 23)%Z with e by lia.
  unfold shr_fexp, Zdigits2. rewrite Hc, Z.sub_diag.
  cbn [shr shr_record_of_loc shr_m].
  now rewrite He.
Qed.

Lemma F64_mul_one x : Flt.valid f x = true → Flt.mul f x (Flt.one f) = x.
Proof.
  destruct x as [[]|[]| |s m e]; intros Hv; try (by destruct f).
  destruct f; [by apply F32_mul_one_finite|by apply F64_mul_one_finite].
Qed.

Lemma F64_mul_zero_finite x :
  F64.is_finite x = true → Flt.mul f x F64.zero = S754_zero (F64.sign x).
Proof. by destruct x as [[]|[]| |[] m e]. Qed.

Lemma F64_mul_zero_nonfinite x :
  F64.is_finite x = false → Flt.mul f x F64.zero = F64.nan.
Proof. by destruct x as [[]|[]| |[] m e]. Qed.

Lemma F64_eqb_refl x : F64.eqb x x = negb (F64.is_nan x).
Proof.
  destruct x as [[]|[]| |[] m e]; try done;
    unfold F64.eqb, SFeqb, SFcompare; rewrite Z.compare_refl;
    change (Pos.compare_cont Eq m m) with (m ?= m)%positive;
    by rewrite Pos.compare_refl.
Qed.

Lemma F64_gtb_not_nan x y :
  F64.gtb x y = true → F64.is_nan x = false ∧ F64.is_nan y = false.
Proof. by destruct x as [[]|[]| |[] m e], y as [[]|[]| |[] m' e']. Qed.

Lemma F64_gtb_inf_r x s : F64.gtb (S754_infinity s) x = true → s = false.
Proof. by destruct s, x as [[]|[]| |[] m e]. Qed.

Lemma F64_mul_nan_l y : Flt.mul f F64.nan y = F64.nan.
Proof. done. Qed.

(** A product with a zero factor and a finite factor is a zero. *)
Lemma F64_mul_is_zero_l x y :
  F64.is_zero x = true → F64.is_finite y = true →
  F64.is_zero (Flt.mul f x y) = true.
Proof. by destruct x as [[]|[]| |[] m e], y as [[]|[]| |[] m' e']. Qed.

Lemma F64_mul_is_zero_r x y :
  F64.is_finite x = true → F64.is_zero y = true →
  F64.is_zero (Flt.mul f x y) = true.
Proof. by destruct x as [[]|[]| |[] m e], y as [[]|[]| |[] m' e']. Qed.

Lemma F64_is_zero_eqb x : F64.is_zero x = true → F64.eqb x F64.zero = true.
Proof. by destruct x as [[]|[]| |[] m e]. Qed.

Lemma F64_eqb_zero_is_zero x : F64.eqb x F64.zero = true → F64.is_zero x = true.
Proof. by destruct x as [[]|[]| |[] m e]. Qed.

End F64_facts.

(** ** Rounding keeps the sign

    What the rounding of the executable specification does to a mantissa
    that is not negative. *)

Section Rounding_facts.

Context {f : ffmt}.

Local Open Scope Z_scope.

Lemma shr_1_m (r : shr_record) :
  0 ≤ shr_m r → shr_m (shr_1 r) = shr_m r / 2.
Proof.
  destruct r as [m rb sb]. simpl. intros Hm.
  rewrite <- Z.div2_div. by destruct m as [|[p|p|]|p].
Qed.

Lemma iter_pos_shr_m (p : positive) (r : shr_record) :
  0 ≤ shr_m r → shr_m (SpecFloat.iter_pos shr_1 p r) = shr_m r / 2 ^ Z.pos p.
Proof.
  revert r. induction p as [p IH|p IH|]; intros r Hr; simpl.
  - assert (0 ≤ shr_m (shr_1 r)) as H1.
    { rewrite shr_1_m by done. by apply Z.div_pos. }
    assert (0 ≤ shr_m (SpecFloat.iter_pos shr_1 p (shr_1 r))) as H2.
    { rewrite IH by done. apply Z.div_pos; [done|]. by apply Z.pow_pos_nonneg. }
    rewrite IH, IH, shr_1_m by done.
    rewrite !Z.div_div by (try apply Z.pow_pos_nonneg; lia).
    f_equal. replace (Z.pos p~1) with (1 + Z.pos p + Z.pos p) by lia.
    rewrite !Z.pow_add_r by lia. rewrite Z.pow_1_r. lia.
  - assert (0 ≤ shr_m (SpecFloat.iter_pos shr_1 p r)) as H2.
    { rewrite IH by done. apply Z.div_pos; [done|]. by apply Z.pow_pos_nonneg. }
    rewrite IH, IH by done.
    rewrite !Z.div_div by (try apply Z.pow_pos_nonneg; lia).
    f_equal. replace (Z.pos p~0) with (Z.pos p + Z.pos p) by lia.
    by rewrite !Z.pow_add_r by lia.
  - rewrite shr_1_m by done. by rewrite Z.pow_1_r.
Qed.

Lemma digits2_pos_le (m : positive) : 2 ^ (Z.pos (digits2_pos m) - 1) ≤ Z.pos m.
Proof.
  induction m as [m IH|m IH|]; simpl; [| |done].
  all: rewrite Pos2Z.inj_succ;
    replace (Z.succ (Z.pos (digits2_pos m)) - 1) with
      (Z.succ (Z.pos (digits2_pos m) - 1)) by lia;
    rewrite Z.pow_succ_r by lia; lia.
Qed.

Lemma shr_record_of_loc_m (m : Z) (l : location) :
  shr_m (shr_record_of_loc m l) = m.
Proof. by destruct l as [|[]]. Qed.

(** Shifting to the exponent of the format keeps a mantissa from going
    negative and brings the exponent in range; it keeps a positive mantissa
    positive when the exponent was in range. *)
Lemma shr_fexp_m (m e : Z) (l : location) :
  0 ≤ m →
  0 ≤ shr_m (shr_fexp (Flt.prec f) (Flt.emax f) m e l).1
  ∧ emin (Flt.prec f) (Flt.emax f) ≤ (shr_fexp (Flt.prec f) (Flt.emax f) m e l).2
  ∧ (0 < m → emin (Flt.prec f) (Flt.emax f) ≤ e →
     0 < shr_m (shr_fexp (Flt.prec f) (Flt.emax f) m e l).1).
Proof.
  intros Hm. unfold shr_fexp, shr.
  destruct (fexp (Flt.prec f) (Flt.emax f) (Zdigits2 m + e) - e) as [|n|n] eqn:Hn;
    simpl; rewrite ?shr_record_of_loc_m.
  1,3: unfold fexp in Hn; split_and!; [done|lia|done].
  rewrite iter_pos_shr_m by (by rewrite shr_record_of_loc_m).
  rewrite shr_record_of_loc_m.
  split_and!.
  - apply Z.div_pos; [done|]. by apply Z.pow_pos_nonneg.
  - unfold fexp in Hn. lia.
  - intros Hpos He. destruct m as [|p|p]; [done| |done].
    apply Z.div_str_pos. split; [by apply Z.pow_pos_nonneg|].
    etrans; [|apply digits2_pos_le].
    apply Z.pow_le_mono_r; [done|].
    unfold fexp, emin in *. destruct f; simpl in *; lia.
Qed.

Lemma round_nearest_even_m (m : Z) (l : location) :
  0 ≤ m → m ≤ round_nearest_even m l.
Proof. intros Hm. destruct l as [|[]]; simpl; try lia. destruct (Z.even m); lia. Qed.

(** Rounding a positive mantissa never gives a negative number or a NaN;
    it gives no zero either when the exponent is in range. *)
Lemma binary_round_aux_nonneg (m : positive) (e : Z) (l : location) :
  Flt.nonneg f (binary_round_aux (Flt.prec f) (Flt.emax f) false (Z.pos m) e l) = true
  ∧ (emin (Flt.prec f) (Flt.emax f) ≤ e →
     F64.is_zero (binary_round_aux (Flt.prec f) (Flt.emax f) false (Z.pos m) e l) = false).
Proof.
  unfold binary_round_aux.
  destruct (shr_fexp_m (Z.pos m) e l) as (H1 & H2 & H3); [done|].
  destruct (shr_fexp (Flt.prec f) (Flt.emax f) (Z.pos m) e l) as [mrs' e']. simpl in *.
  pose proof (round_nearest_even_m (shr_m mrs') (loc_of_shr_record mrs') H1) as Hr.
  set (m1 := round_nearest_even (shr_m mrs') (loc_of_shr_record mrs')) in *.
  destruct (shr_fexp_m m1 e' loc_Exact) as (H4 & H5 & H6); [lia|].
  destruct (shr_fexp (Flt.prec f) (Flt.emax f) m1 e' loc_Exact) as [mrs'' e'']. simpl in *.
  destruct (shr_m mrs'') as [|m''|m''] eqn:Hm''; [|split|done].
  - split; [done|]. intros He. specialize (H3 eq_refl He). lia.
  - destruct (e'' <=? (Flt.emax f) - (Flt.prec f)); simpl; [|done]. by apply Z.leb_le.
  - intros _. by destruct (e'' <=? (Flt.emax f) - (Flt.prec f)).
Qed.

Lemma binary_round_pos (m : positive) (e : Z) :
  emin (Flt.prec f) (Flt.emax f) ≤ e →
  Flt.nonneg f (binary_round (Flt.prec f) (Flt.emax f) false m e) = true
  ∧ F64.is_zero (binary_round (Flt.prec f) (Flt.emax f) false m e) = false.
Proof.
  intros He. unfold binary_round, shl_align.
  destruct (fexp (Flt.prec f) (Flt.emax f) (Z.pos (digits2_pos m) + e) - e) as [|n|n] eqn:Hn.
  1,2: destruct (binary_round_aux_nonneg m e loc_Exact) as [? ?]; auto.
  destruct (binary_round_aux_nonneg (Pos.iter xO m n)
              (fexp (Flt.prec f) (Flt.emax f) (Z.pos (digits2_pos m) + e)) loc_Exact)
    as [? H]; split; [done|]. apply H. unfold fexp. lia.
Qed.

End Rounding_facts.


(** ** Rounding stays in range

    A number whose magnitude is well below the largest one of the format
    is rounded to a number, not to an infinity. *)

Section Range_facts.

Context {f : ffmt}.

Local Open Scope Z_scope.

Lemma digits2_pos_lt (m : positive) : Z.pos m < 2 ^ Z.pos (digits2_pos m).
Proof.
  induction m as [m IH|m IH|]; simpl; [| |done].
  all: rewrite Pos2Z.inj_succ, Z.pow_succ_r by lia; lia.
Qed.

Lemma digits2_pos_iter (m n : positive) :
  Z.pos (digits2_pos (Pos.iter xO m n)) = Z.pos (digits2_pos m) + Z.pos n.
Proof.
  induction n as [|n IH] using Pos.peano_ind.
  - simpl. lia.
  - rewrite Pos.iter_succ. simpl. rewrite Pos2Z.inj_succ, IH. lia.
Qed.

Lemma shr_fexp_spec (m e : Z) (l : location) :
  0 ≤ m →
  let n := Z.max 0 (fexp (Flt.prec f) (Flt.emax f) (Zdigits2 m + e) - e) in
  shr_m (shr_fexp (Flt.prec f) (Flt.emax f) m e l).1 = m / 2 ^ n
  ∧ (shr_fexp (Flt.prec f) (Flt.emax f) m e l).2 = e + n.
Proof.
  intros Hm. unfold shr_fexp, shr.
  destruct (fexp (Flt.prec f) (Flt.emax f) (Zdigits2 m + e) - e) as [|n|n];
    simpl; rewrite ?shr_record_of_loc_m.
  - rewrite Z.div_1_r. split; lia.
  - rewrite iter_pos_shr_m by (by rewrite shr_record_of_loc_m).
    rewrite shr_record_of_loc_m. split; [|lia].
    f_equal.
  - rewrite Z.div_1_r. split; lia.
Qed.

Lemma round_nearest_even_le (m : Z) (l : location) :
  round_nearest_even m l ≤ m + 1.
Proof. destruct l as [|[]]; simpl; try lia. destruct (Z.even m); lia. Qed.

(** The digits of a mantissa that was shifted and rounded. *)
Lemma digits_after_shift (m d n m1 : Z) :
  0 ≤ m < 2 ^ d → 0 ≤ d → 0 ≤ n → 0 < m1 ≤ m / 2 ^ n + 1 →
  Zdigits2 m1 ≤ Z.max (d - n) 0 + 1.
Proof.
  intros [Hm0 Hm] Hd Hn [Hpos Hm1].
  assert (m / 2 ^ n < 2 ^ Z.max (d - n) 0) as Hq.
  { apply Z.div_lt_upper_bound; [by apply Z.pow_pos_nonneg|].
    rewrite <- Z.pow_add_r by lia.
    eapply Z.lt_le_trans; [exact Hm|]. apply Z.pow_le_mono_r; lia. }
  destruct m1 as [|p|p]; [done| |done]. simpl.
  pose proof (digits2_pos_le p) as Hp.
  destruct (Z_le_gt_dec (Z.pos (digits2_pos p)) (Z.max (d - n) 0 + 1))
    as [|Hgt]; [done|].
  assert (2 ^ (Z.max (d - n) 0 + 1) ≤ 2 ^ (Z.pos (digits2_pos p) - 1)) as Hpow
    by (apply Z.pow_le_mono_r; lia).
  rewrite Z.pow_add_r, Z.pow_1_r in Hpow by lia.
  assert (0 < 2 ^ Z.max (d - n) 0) by (apply Z.pow_pos_nonneg; lia).
  lia.
Qed.

Lemma binary_round_aux_finite (sx : bool) (mx : positive) (ex : Z)
    (l : location) :
  ex ≤ Flt.emax f - Flt.prec f →
  Z.pos (digits2_pos mx) + ex + 1 ≤ Flt.emax f →
  F64.is_finite
    (binary_round_aux (Flt.prec f) (Flt.emax f) sx (Z.pos mx) ex l) = true.
Proof.
  intros He Hd. unfold binary_round_aux.
  destruct (shr_fexp_spec (Z.pos mx) ex l) as [H1 H2]; [done|].
  destruct (shr_fexp (Flt.prec f) (Flt.emax f) (Z.pos mx) ex l) as [mrs' e'].
  simpl in H1, H2.
  set (n1 := Z.max 0 (fexp (Flt.prec f) (Flt.emax f)
                        (Zdigits2 (Z.pos mx) + ex) - ex)) in *.
  assert (0 ≤ shr_m mrs') as Hm'.
  { rewrite H1. apply Z.div_pos; [done|]. apply Z.pow_pos_nonneg; lia. }
  pose proof (round_nearest_even_m (shr_m mrs') (loc_of_shr_record mrs') Hm')
    as Hr1.
  pose proof (round_nearest_even_le (shr_m mrs') (loc_of_shr_record mrs'))
    as Hr2.
  set (m1 := round_nearest_even (shr_m mrs') (loc_of_shr_record mrs')) in *.
  destruct (shr_fexp_spec m1 e' loc_Exact) as [H3 H4]; [lia|].
  destruct (shr_fexp (Flt.prec f) (Flt.emax f) m1 e' loc_Exact) as [mrs'' e''].
  simpl in H3, H4.
  destruct (shr_m mrs'') as [|m''|m''] eqn:Hm''; [done| |].
  - assert (0 < m1) as Hm1.
    { destruct (Z_lt_le_dec 0 m1); [done|].
      assert (m1 = 0) as -> by lia. by rewrite Z.div_0_l in H3 by
        (apply Z.pow_nonzero; lia). }
    destruct (e'' <=? Flt.emax f - Flt.prec f) eqn:Hle; [done|].
    apply Z.leb_gt in Hle. exfalso.
    assert (0 ≤ n1) as Hn1 by (unfold n1; lia).
    assert (Zdigits2 m1 ≤ Z.max (Z.pos (digits2_pos mx) - n1) 0 + 1) as Hb.
    { apply (digits_after_shift (Z.pos mx)); [|lia|lia|].
      2: { unfold n1. simpl Zdigits2. rewrite <- H1. lia. }
      split; [lia|apply digits2_pos_lt]. }
    clearbody m1. clear H1 H3 Hr1 Hr2 Hm'' Hm'.
    subst n1. simpl Zdigits2 in *.
    unfold fexp, emin in *. destruct f; simpl in *; lia.
  - assert (0 ≤ m1 / 2 ^ Z.max 0
              (fexp (Flt.prec f) (Flt.emax f) (Zdigits2 m1 + e') - e')).
    { apply Z.div_pos; [lia|]. apply Z.pow_pos_nonneg; lia. }
    lia.
Qed.

Lemma binary_round_finite (sx : bool) (mx : positive) (ex : Z) :
  ex ≤ Flt.emax f - Flt.prec f →
  Z.pos (digits2_pos mx) + ex + 1 ≤ Flt.emax f →
  F64.is_finite (binary_round (Flt.prec f) (Flt.emax f) sx mx ex) = true.
Proof.
  intros He Hd. unfold binary_round, shl_align.
  destruct (fexp (Flt.prec f) (Flt.emax f) (Z.pos (digits2_pos mx) + ex) - ex)
    as [|n|n] eqn:Hn.
  1,2: by apply binary_round_aux_finite.
  apply binary_round_aux_finite; [lia|].
  unfold shift_pos. rewrite digits2_pos_iter. lia.
Qed.

End Range_facts.

(** ** Conversions between the formats, and from integers *)

Section Conversion_facts.

Implicit Types x y : F64.t.
Implicit Types f g : ffmt.

Lemma cast_nan f g : Flt.cast f g F64.nan = F64.nan.
Proof. by destruct f, g. Qed.

Lemma cast_zero f g s : Flt.cast f g (S754_zero s) = S754_zero s.
Proof. by destruct f, g. Qed.

Lemma cast_not_finite f g x :
  F64.is_finite x = false → Flt.cast f g x = x.
Proof. by destruct f, g, x. Qed.

Lemma cast_is_zero f g x :
  F64.is_zero x = true → F64.is_zero (Flt.cast f g x) = true.
Proof. destruct x; try done. by rewrite cast_zero. Qed.

Lemma nonneg_not_neg f x : Flt.nonneg f x = true → F64.ltb x F64.zero = false.
Proof. by destruct x as [[]|[]| |[] m e]. Qed.

(** Rounding gives the sign of what is rounded, and never a NaN. *)
Lemma binary_round_sign f (s : bool) (m : positive) (e : Z) :
  F64.is_nan (binary_round (Flt.prec f) (Flt.emax f) s m e) = false
  ∧ F64.sign (binary_round (Flt.prec f) (Flt.emax f) s m e) = s.
Proof.
  unfold binary_round.
  destruct (shl_align _ _ _) as [mz ez].
  unfold binary_round_aux.
  destruct (shr_fexp_m (f:=f) (Z.pos mz) ez loc_Exact) as (H1 & _ & _); [done|].
  destruct (shr_fexp _ _ (Z.pos mz) ez loc_Exact) as [mrs' e']. simpl in H1.
  pose proof (round_nearest_even_m (shr_m mrs') (loc_of_shr_record mrs') H1)
    as Hr.
  destruct (shr_fexp_m (f:=f)
              (round_nearest_even (shr_m mrs') (loc_of_shr_record mrs')) e'
              loc_Exact) as (H4 & _ & _); [lia|].
  destruct (shr_fexp _ _ _ e' loc_Exact) as [mrs'' e'']. simpl in H4.
  destruct (shr_m mrs'') as [|m''|m'']; [done| |lia].
  by destruct (_ <=? _)%Z.
Qed.

Lemma cast_sign f g x :
  (F64.is_nan (Flt.cast f g x) = true → F64.is_nan x = true)
  ∧ F64.sign (Flt.cast f g x) = F64.sign x.
Proof.
  destruct x as [s|s| |s m e]; rewrite ?cast_zero, ?cast_nan;
    try (by destruct f, g).
  destruct f, g; try done.
  - destruct (binary_round_sign B64 s m e) as [H1 H2].
    simpl in *. split; [congruence|done].
  - destruct (binary_round_sign B32 s m e) as [H1 H2].
    simpl in *. split; [congruence|done].
Qed.

Lemma cast_not_neg f g x :
  F64.ltb x F64.zero = false → F64.ltb (Flt.cast f g x) F64.zero = false.
Proof.
  intros Hx. destruct (cast_sign f g x) as [Hn Hs].
  destruct x as [s|s| |s m e]; rewrite ?cast_zero, ?cast_nan; try done.
  - by rewrite cast_not_finite.
  - assert (s = false) as -> by (by destruct s).
    destruct (Flt.cast f g (S754_finite false m e)) as [?|[]| |[] ? ?];
      simpl in *; try done.
Qed.

Lemma digits2_pos_bound (p : positive) (k : Z) :
  (Z.pos p ≤ 2 ^ k → 0 ≤ k → Z.pos (digits2_pos p) ≤ k + 1)%Z.
Proof.
  intros Hp Hk. pose proof (digits2_pos_le p) as Hd.
  destruct (Z_le_gt_dec (Z.pos (digits2_pos p)) (k + 1)) as [|Hgt]; [done|].
  assert (2 ^ (k + 1) ≤ 2 ^ (Z.pos (digits2_pos p) - 1))%Z as Hpow
    by (apply Z.pow_le_mono_r; lia).
  rewrite Z.pow_add_r, Z.pow_1_r in Hpow by lia.
  assert (0 < 2 ^ k)%Z by (apply Z.pow_pos_nonneg; lia).
  lia.
Qed.

(** A float is a double, and a number stays what it is in its own
    format. *)
Lemma cast_finite f g x :
  Flt.wider f g = g →
  Flt.valid f x = true → F64.is_finite x = true →
  F64.is_finite (Flt.cast f g x) = true.
Proof.
  intros Hw Hv Hx. destruct x as [s|s| |s m e]; rewrite ?cast_zero; try done.
  destruct f, g; try done. simpl.
  unfold Flt.valid, valid_binary, bounded, canonical_mantissa in Hv.
  apply andb_prop in Hv as [Hc He].
  apply Z.eqb_eq in Hc. apply Z.leb_le in He.
  apply (binary_round_finite (f:=B64)); unfold fexp, emin in *; simpl in *; lia.
Qed.

Lemma cast_nonneg f g x :
  Flt.wider f g = g →
  Flt.valid f x = true → F64.sign x = false → F64.is_nan x = false →
  Flt.nonneg g (Flt.cast f g x) = true.
Proof.
  intros Hw Hv Hs Hn.
  destruct x as [s|s| |s m e]; simpl in *; subst; rewrite ?cast_zero;
    try done.
  - by rewrite cast_not_finite.
  - unfold Flt.valid, valid_binary, bounded, canonical_mantissa in Hv.
    apply andb_prop in Hv as [Hc He].
    apply Z.eqb_eq in Hc. apply Z.leb_le in He.
    destruct f, g; try done; simpl.
    + apply Z.leb_le. unfold fexp, emin in *. simpl in *. lia.
    + apply (binary_round_pos (f:=B64)).
      unfold fexp, emin in *. simpl in *. lia.
    + apply Z.leb_le. unfold fexp, emin in *. simpl in *. lia.
Qed.

(** An integer of 64 bits or less is a number of either format, of its
    sign. *)
Lemma of_Z_finite g (z : Z) :
  (- 2 ^ 63 ≤ z < 2 ^ 63)%Z → F64.is_finite (Flt.of_Z g z) = true.
Proof.
  intros Hz. unfold Flt.of_Z, binary_normalize.
  destruct z as [|p|p]; [done| |];
    apply (binary_round_finite (f:=g));
    try (destruct g; simpl; lia);
    pose proof (digits2_pos_bound p 63) as Hd;
    (assert (Z.pos (digits2_pos p) ≤ 63 + 1)%Z by (apply Hd; lia));
    destruct g; simpl; lia.
Qed.

Lemma of_Z_nonneg g (z : Z) :
  (0 ≤ z)%Z → Flt.nonneg g (Flt.of_Z g z) = true.
Proof.
  intros Hz. unfold Flt.of_Z, binary_normalize.
  destruct z as [|p|p]; [done| |lia].
  apply (binary_round_pos (f:=g)). destruct g; unfold emin; simpl; lia.
Qed.

Lemma of_Z_sign g (z : Z) :
  F64.is_nan (Flt.of_Z g z) = false
  ∧ (F64.is_zero (Flt.of_Z g z) = false → F64.sign (Flt.of_Z g z) = false →
     (0 < z)%Z).
Proof.
  unfold Flt.of_Z, binary_normalize.
  destruct z as [|p|p]; [done| |].
  - destruct (binary_round_sign g false p 0) as [H1 _]. split; [done|lia].
  - destruct (binary_round_sign g true p 0) as [H1 H2].
    split; [done|]. intros _ Hs. congruence.
Qed.

End Conversion_facts.
(** ** The model of the reductions satisfies the laws *)

Section Numpy_facts.

Variable f : ffmt.

Implicit Types x y acc : F64.t.
Implicit Types l : list F64.t.

Lemma F64_add_zeros x y :
  F64.is_zero x = true → F64.is_zero y = true →
  F64.is_zero (Flt.add f x y) = true.
Proof. by destruct x as [[]|[]| |[] m e], y as [[]|[]| |[] m' e']. Qed.

Lemma F64_add_zero_r p z :
  F64.is_zero z = true → F64.is_zero p = false → Flt.add f p z = p.
Proof. by destruct p as [[]|[]| |[] m e], z as [[]|[]| |[] m' e']. Qed.

Lemma F64_add_zero_l p z :
  F64.is_zero z = true → F64.is_zero p = false → Flt.add f z p = p.
Proof. by destruct p as [[]|[]| |[] m e], z as [[]|[]| |[] m' e']. Qed.

Lemma fold_add_zeros l acc :
  F64.is_zero acc = true → Forall (λ x, F64.is_zero x = true) l →
  F64.is_zero (fold_left (Flt.add f) l acc) = true.
Proof.
  intros Hacc Hl. revert acc Hacc.
  induction Hl as [|x l Hx _ IH]; intros acc Hacc; simpl; [done|].
  apply IH. by apply F64_add_zeros.
Qed.

Lemma fold_add_keeps l p :
  F64.is_zero p = false → Forall (λ x, F64.is_zero x = true) l →
  fold_left (Flt.add f) l p = p.
Proof.
  intros Hp Hl. induction Hl as [|x l Hx _ IH]; simpl; [done|].
  by rewrite F64_add_zero_r.
Qed.

Lemma Numpy_sum_zeros l :
  Forall (λ x, F64.is_zero x = true) l → F64.is_zero (Numpy.sum f l) = true.
Proof. by apply fold_add_zeros. Qed.

Lemma Numpy_sum_single l1 l2 p :
  Forall (λ x, F64.is_zero x = true) l1 →
  Forall (λ x, F64.is_zero x = true) l2 →
  F64.is_zero p = false →
  Numpy.sum f (l1 ++ p :: l2) = p.
Proof.
  intros H1 H2 Hp. unfold Numpy.sum. rewrite fold_left_app. simpl.
  rewrite (F64_add_zero_l p); [by apply fold_add_keeps| |done].
  by apply fold_add_zeros.
Qed.

(** Once a sum is NaN or an infinity, it stays NaN or that infinity. *)
Lemma add_absorbed_l s acc y :
  Numpy.absorbed s acc → Numpy.absorbed s (Flt.add f acc y).
Proof.
  intros [->| ->]; [by left|].
  destruct s, y as [[]|[]| |[] m e]; by (left + right).
Qed.

Lemma add_absorbed_r s acc : Numpy.absorbed s (Flt.add f acc (S754_infinity s)).
Proof. destruct s, acc as [[]|[]| |[] m e]; by (left + right). Qed.

Lemma fold_add_absorbed s l acc :
  Numpy.absorbed s acc → Numpy.absorbed s (fold_left (Flt.add f) l acc).
Proof.
  revert acc. induction l as [|x l IH]; intros acc H; simpl; [done|].
  by apply IH, add_absorbed_l.
Qed.

Lemma fold_add_inf s l acc :
  S754_infinity s ∈ l → Numpy.absorbed s (fold_left (Flt.add f) l acc).
Proof.
  revert acc. induction l as [|x l IH]; intros acc Hin; [by inversion Hin|].
  simpl. apply elem_of_cons in Hin as [<-|Hin]; [|by apply IH].
  apply fold_add_absorbed, add_absorbed_r.
Qed.

Lemma fold_add_from_nan l : fold_left (Flt.add f) l F64.nan = F64.nan.
Proof. induction l as [|x l IH]; [done|]. simpl. exact IH. Qed.

Lemma fold_add_nan l acc : F64.nan ∈ l → fold_left (Flt.add f) l acc = F64.nan.
Proof.
  revert acc. induction l as [|x l IH]; intros acc Hin; [by inversion Hin|].
  simpl. apply elem_of_cons in Hin as [<-|Hin]; [|by apply IH].
  replace (Flt.add f acc F64.nan) with F64.nan by (by destruct acc).
  apply fold_add_from_nan.
Qed.

Lemma binary_round_aux_sign sx m e lx :
  match binary_round_aux (Flt.prec f) (Flt.emax f) sx m e lx with
  | S754_zero s | S754_infinity s | S754_finite s _ _ => s = sx
  | S754_nan => True
  end.
Proof.
  unfold binary_round_aux.
  destruct (shr_fexp _ _ m e lx) as [mrs' e'].
  destruct (shr_fexp _ _ _ e' loc_Exact) as [mrs'' e''].
  destruct (shr_m mrs''); [done| |done].
  by destruct (e'' <=? (Flt.emax f) - (Flt.prec f))%Z.
Qed.

(** The number of elements, as a float, is never negative. *)
Lemma count_sign l :
  match Numpy.count f l with
  | S754_zero s | S754_infinity s | S754_finite s _ _ => s = false
  | S754_nan => True
  end.
Proof.
  unfold Numpy.count, Flt.of_Z, binary_normalize.
  destruct (Z.of_nat (length l)) as [|p|p] eqn:E; [done| |lia].
  unfold binary_round. destruct (shl_align _ _ _) as [mz ez].
  apply binary_round_aux_sign.
Qed.

Lemma div_absorbed s x l :
  Numpy.absorbed s x → Numpy.absorbed s (Flt.div f x (Numpy.count f l)).
Proof.
  intros [->| ->]; [by left|].
  pose proof (count_sign l) as Hc.
  destruct (Numpy.count f l) as [c|c| |c m e]; simplify_eq/=;
    destruct s; by (left + right).
Qed.

Lemma sub_absorbed s m :
  Numpy.absorbed s m → Flt.sub f (S754_infinity s) m = F64.nan.
Proof. intros [->| ->]; by destruct s. Qed.

Lemma Numpy_std_nonfinite l :
  Exists (λ x, F64.is_finite x = false) l → Numpy.std f l = F64.nan.
Proof.
  intros (x & Hin & Hx)%Exists_exists.
  unfold Numpy.std. cbv zeta.
  set (m := Numpy.mean f l).
  assert (Flt.sub f x m = F64.nan) as Hd.
  { destruct x as [s|s| |s mx e]; try done.
    apply sub_absorbed. unfold m, Numpy.mean.
    by apply div_absorbed, fold_add_inf. }
  assert (Numpy.sum f ((λ x, Flt.mul f (Flt.sub f x m) (Flt.sub f x m)) <$> l) = F64.nan)
    as ->.
  { apply fold_add_nan. apply list_elem_of_fmap. exists x. split; [|done].
    simpl. by rewrite Hd. }
  done.
Qed.

(** Sums of numbers that are not negative. *)
Lemma F64_add_nonneg x y :
  Flt.nonneg f x = true → Flt.nonneg f y = true →
  Flt.nonneg f (Flt.add f x y) = true
  ∧ (F64.is_zero x = false ∨ F64.is_zero y = false →
     F64.is_zero (Flt.add f x y) = false).
Proof.
  destruct x as [sx|[]| |[] mx ex], y as [sy|[]| |[] my ey]; try done;
    simpl; intros Hx Hy; try (split; [done|]; by intros [?|?]).
  - split; [by destruct sx, sy|]. by intros [?|?].
  - apply Z.leb_le in Hx, Hy.
    unfold Flt.add, SFadd. cbn [cond_Zopp Z.add binary_normalize].
    destruct (binary_round_pos (f:=f)
                (fst (shl_align mx ex (Z.min ex ey))
                 + fst (shl_align my ey (Z.min ex ey)))
                (Z.min ex ey)) as [? ?]; [lia|]. by split.
Qed.

Lemma fold_add_nonneg l acc :
  Flt.nonneg f acc = true → Forall (λ x, Flt.nonneg f x = true) l →
  Flt.nonneg f (fold_left (Flt.add f) l acc) = true
  ∧ (F64.is_zero acc = false ∨ Exists (λ x, F64.is_zero x = false) l →
     F64.is_zero (fold_left (Flt.add f) l acc) = false).
Proof.
  intros Hacc Hl. revert acc Hacc.
  induction Hl as [|x l Hx _ IH]; intros acc Hacc; simpl.
  - split; [done|]. intros [?|H]; [done|by inversion H].
  - destruct (F64_add_nonneg acc x Hacc Hx) as [Hn Hz].
    destruct (IH _ Hn) as [IH1 IH2]. split; [done|].
    intros [H|H]; apply IH2.
    + left. apply Hz. by left.
    + inversion H; subst; [left; apply Hz; by right|by right].
Qed.

Lemma F64_nonneg_nonzero x :
  Flt.nonneg f x = true → F64.is_zero x = false → F64.eqb x F64.zero = false.
Proof. by destruct x as [[]|[]| |[] m e]. Qed.

Lemma Numpy_sum_pos l :
  Forall (λ x, Flt.nonneg f x = true) l →
  Exists (λ x, F64.is_zero x = false) l →
  F64.eqb (Numpy.sum f l) F64.zero = false.
Proof.
  intros Hl He.
  destruct (fold_add_nonneg l F64.zero eq_refl Hl) as [Hn Hz].
  apply F64_nonneg_nonzero; [done|]. apply Hz. by right.
Qed.

Lemma F64_sqrt_not_neg x : F64.ltb (Flt.sqrt f x) F64.zero = false.
Proof.
  destruct x as [[]|[]| |[] m e]; try done.
  unfold Flt.sqrt, SFsqrt.
  destruct (SFsqrt_core_binary _ _ _ _) as [[mz ez] lz].
  pose proof (binary_round_aux_sign false mz ez lz) as Hs.
  by destruct (binary_round_aux _ _ _ _ _ _) as [[]|[]| |[] m' e'].
Qed.

Lemma Numpy_std_not_neg l : F64.ltb (Numpy.std f l) F64.zero = false.
Proof. apply F64_sqrt_not_neg. Qed.

End Numpy_facts.

Lemma Numpy_laws (mo ho : bool) (tn : nat → string) tt mr hc fh :
  numpy_laws (mk_Env mo ho tn tt mr hc fh Numpy.std Numpy.sum).
Proof.
  constructor; simpl; intros g.
  - apply Numpy_sum_zeros.
  - apply Numpy_sum_single.
  - apply Numpy_sum_pos.
  - apply Numpy_std_nonfinite.
  - apply Numpy_std_not_neg.
Qed.

(** ** Runs of the program *)

Section Runs.

Variable env : Env.

Lemma events_since_app (s s' : state) (evs : list event) :
  trace s' = trace s ++ evs → events_since s s' = evs.
Proof. unfold events_since. intros ->. by rewrite drop_app_length. Qed.

(** What a call of [project_to_header] adds to the trace: its own mark,
    then the calls of the branch it takes, none of them a mark. *)
Lemma project_to_header_trace f h um q kw s r s' :
  project_to_header env f h um q kw s = (r, s') →
  ∃ evs, trace s' = trace s ++ CallProject f h um q kw :: evs
         ∧ project_calls evs = []
         ∧ (montageOK env && um = true →
              head evs = Some (CallToTxtFile h (tmp_name env (next_tmp s)))
              ∧ List.filter is_hcongrid_call evs = [])
         ∧ (montageOK env && um = false →
              List.filter is_montage_call evs = []
              ∧ (hcongridOK env = false → evs = [])).
Proof.
  unfold_run. simpl. intros H.
  destruct (montageOK env && um) eqn:Hsel; step_run;
    rewrite <- ?app_assoc; simpl; eexists; (split; [reflexivity|]);
    repeat split; done.
Qed.

Lemma project_to_header_raises f h um q kw s e s' :
  project_to_header env f h um q kw s = (Raise e, s') →
  e = UnboundLocalError "image" ∨ ∃ m, e = LibraryError m.
Proof.
  unfold_run. simpl. intros H.
  destruct (montageOK env && um); step_run; eauto.
Qed.

Lemma filter_ne_fresh (l : list nat) (n m : nat) :
  Forall (λ i, i < n) l → n ≤ m → filter (λ i, i ≠ m) l = l.
Proof.
  induction 1 as [|x l Hx _ IH]; intros Hm; [done|].
  rewrite filter_cons_True by lia. f_equal. by apply IH.
Qed.

(** C2 (as amended): [project_to_header] ends without a value for [image]
    exactly when the montage branch is not taken (montage missing or not
    preferred) and hcongrid is missing; it then stops at [return image] with
    the name unbound, having called no backend and raised nothing itself.
    In every other case it returns an image or passes on the failure of a
    library call. *)
Theorem project_to_header_result f h um q kw s :
  match project_to_header env f h um q kw s with
  | (Ok _, _) | (Raise (LibraryError _), _) =>
      (montageOK env && um) || hcongridOK env = true
  | (Raise (UnboundLocalError name), s') =>
      name = "image"
      ∧ (montageOK env && um) || hcongridOK env = false
      ∧ events_since s s' = [CallProject f h um q kw]
      ∧ disk s' = disk s ∧ open_tmps s' = open_tmps s
  | (Raise (ValueError _), _) | (Raise (OverflowError _), _) => False
  end.
Proof.
  unfold_run. simpl.
  destruct (montageOK env && um) eqn:Hsel; step_run; try done.
  repeat split; try done. by apply events_since_app.
Qed.

(** The temporary files of the montage branch: when the call returns, both
    have been closed and deleted (lines 54-55); when a library call of the
    branch fails, these lines are not reached and the exception leaves
    [project_to_header] with the temporary files made so far still open. *)
Theorem montage_temp_files f h um q kw s :
  montageOK env && um = true → wf_state s →
  match project_to_header env f h um q kw s with
  | (Ok _, s') =>
      open_tmps s' = open_tmps s
      ∧ disk s' !! tmp_name env (next_tmp s) = None
      ∧ disk s' !! tmp_name env (S (next_tmp s)) = None
  | (Raise _, s') =>
      next_tmp s ∈ open_tmps s' ∧ open_tmps s' ≠ open_tmps s
  end.
Proof.
  intros Hsel Hwf. unfold wf_state in Hwf.
  unfold_run. simpl. rewrite Hsel. step_run.
  1: { split_and!.
    + rewrite (filter_cons_False _ (S (next_tmp s))) by naive_solver.
      rewrite (filter_cons_True _ (next_tmp s)) by lia.
      rewrite (filter_ne_fresh (open_tmps s) (next_tmp s) (S (next_tmp s)))
        by (done || lia).
      rewrite (filter_cons_False _ (next_tmp s)) by naive_solver.
      by apply (filter_ne_fresh _ (next_tmp s)).
    + apply lookup_delete_eq.
    + destruct (decide (tmp_name env (next_tmp s) = tmp_name env (S (next_tmp s))))
        as [->|Hne]; [apply lookup_delete_eq|].
      rewrite lookup_delete_ne by done. apply lookup_delete_eq. }
  all: split; [set_solver|]; intros Heq; apply (f_equal length) in Heq;
    simpl in Heq; lia.
Qed.

Lemma filter_old (l : list nat) (n : nat) :
  Forall (λ i, i < n) l →
  filter (λ i, n ≤ i) l = [] ∧ filter (λ i, i < n) l = l.
Proof.
  induction 1 as [|i l Hi _ [IH1 IH2]]; [done|].
  rewrite filter_cons_False by lia. rewrite filter_cons_True by done.
  by rewrite IH1, IH2.
Qed.

(** The files the failed call leaves open are closed and deleted by the
    interpreter, when it releases the frame of the call: the module itself
    has no line for it. *)
Lemma montage_temp_files_finalized f h um q kw s e s' :
  montageOK env && um = true → wf_state s →
  project_to_header env f h um q kw s = (Raise e, s') →
  open_tmps (finalize env (next_tmp s) s') = open_tmps s
  ∧ ∀ i, i ∈ open_tmps s' → next_tmp s ≤ i →
      disk (finalize env (next_tmp s) s') !! tmp_name env i = None.
Proof.
  intros Hsel Hwf. unfold wf_state in Hwf.
  destruct (filter_old _ _ Hwf) as [Ho1 Ho2].
  unfold_run. unfold finalize. simpl. rewrite Hsel. step_run.
  all: intros [= <- <-]; cbn [open_tmps disk].
  all: rewrite ?(filter_cons_True (λ i, next_tmp s ≤ i)) by lia;
    rewrite ?(filter_cons_False (λ i, i < next_tmp s)) by lia;
    rewrite Ho1, Ho2; split; [done|]; simpl;
    intros i Hi Hle;
    repeat (apply elem_of_cons in Hi as [->|Hi]);
    try (rewrite Forall_forall in Hwf; apply Hwf in Hi; lia);
    try apply lookup_delete_eq.
  all: destruct (decide (tmp_name env (next_tmp s)
                         = tmp_name env (S (next_tmp s)))) as [<-|Hne];
    [apply lookup_delete_eq|].
  all: rewrite lookup_delete_ne by done; apply lookup_delete_eq.
Qed.

(** C8: the montage branch is taken exactly when montage can be imported
    and is preferred, and nothing of it depends on the extra keyword
    options; otherwise, with hcongrid there, hcongrid is called with the
    squeezed data of the file, the flattened header of the file, the target
    header and the extra keyword options, and its result is the result. *)
Theorem project_to_header_backend f h um q kw s r s' :
  project_to_header env f h um q kw s = (r, s') →
  (montageOK env && um = true
     ↔ ∃ e, e ∈ events_since s s' ∧ is_montage_call e = true)
  ∧ (montageOK env && um = true →
       List.filter is_hcongrid_call (events_since s s') = []
       ∧ ∀ kw', ∃ s'',
           project_to_header env f h um q kw' s = (r, s'')
           ∧ disk s'' = disk s' ∧ open_tmps s'' = open_tmps s'
           ∧ tail (events_since s s'') = tail (events_since s s'))
  ∧ (montageOK env && um = false → hcongridOK env = true →
       ∀ hd d, disk s !! f = Some (FitsFile hd d) →
         events_since s s'
         = [CallProject f h um q kw; CallGetData f; CallGetHeader f;
            CallHcongrid (squeeze d) (flatten_header env hd) h kw]
         ∧ r = match hcongrid env (squeeze d) (flatten_header env hd) h kw with
               | inl e => Raise (LibraryError e)
               | inr img => Ok img
               end
         ∧ disk s' = disk s).
Proof.
  intros Hrun.
  destruct (project_to_header_trace _ _ _ _ _ _ _ _ Hrun)
    as (evs & Htr & _ & Hm & Hh).
  pose proof (events_since_app _ _ _ Htr) as Hev.
  split_and!.
  - rewrite Hev. split.
    + intros Hsel. destruct (Hm Hsel) as [Hhd _].
      destruct evs as [|e evs]; simplify_eq/=.
      exists (CallToTxtFile h (tmp_name env (next_tmp s))). split; [set_solver|done].
    + intros (e & Hin & He).
      destruct (montageOK env && um) eqn:Hsel; [done|].
      destruct (Hh eq_refl) as [Hf _].
      apply elem_of_cons in Hin as [->|Hin]; [done|].
      assert (e ∈ List.filter is_montage_call evs) as Hin'.
      { apply list_elem_of_In, filter_In. split; [by apply list_elem_of_In|done]. }
      rewrite Hf in Hin'. by apply elem_of_nil in Hin'.
  - intros Hsel. destruct (Hm Hsel) as [_ Hf].
    split; [by rewrite Hev|].
    intros kw'. revert Hrun. clear Htr Hm Hh Hf Hev evs.
    unfold events_since. unfold_run. simpl. rewrite Hsel. intros Hrun.
    step_run; eexists; (split; [reflexivity|]); simpl;
      rewrite <- ?app_assoc, ?drop_app_length; done.
  - rewrite Hev. intros Hsel Hhc hd d Hf. revert Hrun Htr. clear Hm Hh Hev.
    unfold_run. simpl. rewrite Hsel, Hhc. simpl. repeat (rewrite Hf; simpl).
    destruct (hcongrid env _ _ _ _) eqn:Hc; intros; simplify_eq/=;
      rewrite <- ?app_assoc in Htr; apply app_inv_head in Htr; simplify_eq/=; done.
Qed.

(** *** match_fits, step by step *)

Lemma threshold_shape (img : image) t : shape (threshold_at img t) = shape img.
Proof. done. Qed.

(** The product with [sigma_cut] fails in one way only. *)
Lemma times_sigma_raises t sc e :
  times_sigma t sc = Raise e →
  overflows sc = true
  ∧ e = OverflowError "long int too large to convert to float".
Proof.
  unfold times_sigma. destruct sc; simpl; try done.
  destruct (F64.is_inf _); [|done]. by intros [= <-].
Qed.

Lemma times_sigma_ok t sc :
  overflows sc = false → ∃ t', times_sigma t sc = Ok t'.
Proof.
  unfold times_sigma. destruct sc; simpl; eauto.
  intros ->. eauto.
Qed.

Lemma apply_sigma_cut_run i1 i2 sc s :
  apply_sigma_cut env i1 i2 sc s =
  if truthy sc then
    match times_sigma (std_of env i1) sc, times_sigma (std_of env i2) sc with
    | Ok t1, Ok t2 =>
        if overlap_is_zero env (threshold_at i1 t1) (threshold_at i2 t2)
        then (Ok (i1, i2),
              mk_state (disk s) (next_tmp s) (open_tmps s)
                       (trace s ++ [PrintCutFailed sc]))
        else (Ok (threshold_at i1 t1, threshold_at i2 t2), s)
    | Raise e, _ | Ok _, Raise e => (Raise e, s)
    end
  else (Ok (i1, i2), s).
Proof.
  unfold apply_sigma_cut, threshold, bind, ret, raise, log.
  destruct (truthy sc); [|done].
  destruct (times_sigma (std_of env i1) sc) as [t1|e1]; [|done].
  destruct (times_sigma (std_of env i2) sc) as [t2|e2]; [|done].
  by destruct (overlap_is_zero _ _ _).
Qed.

Lemma match_fits_run f1 f2 header sc rh kw s :
  match_fits env f1 f2 header sc rh kw s =
  match resolve_images env f1 f2 header kw s with
  | (Ok (hdr, i1, i2), s1) =>
      if decide (shape i1 ≠ shape i2) then
        (Raise (ValueError "Failed to reproject images to same shape."), s1)
      else
        match apply_sigma_cut env i1 i2 sc s1 with
        | (Ok c, s2) =>
            (Ok (if rh then Triple c.1 c.2 hdr else Pair c.1 c.2), s2)
        | (Raise e, s2) => (Raise e, s2)
        end
  | (Raise e, s1) => (Raise e, s1)
  end.
Proof.
  unfold match_fits, bind.
  destruct (resolve_images env f1 f2 header kw s) as [[[[hdr i1] i2]|e] s1];
    [|done].
  destruct (decide _); [done|].
  destruct (apply_sigma_cut env i1 i2 sc s1) as [[c|e] s2]; [|done].
  by destruct rh.
Qed.

Lemma resolve_images_run f1 f2 header kw s :
  resolve_images env f1 f2 header kw s =
  match resolve_image1 env f1 header kw s with
  | (Ok (hdr, i1), s1) =>
      match project env f2 hdr kw s1 with
      | (Ok i2, s2) => (Ok (hdr, i1, i2), s2)
      | (Raise e, s2) => (Raise e, s2)
      end
  | (Raise e, s1) => (Raise e, s1)
  end.
Proof.
  unfold resolve_images, bind.
  destruct (resolve_image1 env f1 header kw s) as [[[hdr i1]|e] s1]; [|done].
  simpl. by destruct (project env f2 hdr kw s1) as [[i2|e] s2].
Qed.

Lemma resolve_image1_run f1 header kw s :
  resolve_image1 env f1 header kw s =
  match header with
  | None =>
      let s1 := mk_state (disk s) (next_tmp s) (open_tmps s)
                  (trace s ++ [CallGetHeader f1]) in
      let s2 := mk_state (disk s) (next_tmp s) (open_tmps s)
                  (trace s ++ [CallGetHeader f1; CallGetData f1]) in
      match disk s !! f1 with
      | Some (FitsFile h1 d1) => (Ok (flatten_header env h1, squeeze d1), s2)
      | _ => (Raise (LibraryError "IOError"), s1)
      end
  | Some h =>
      match project env f1 h kw s with
      | (Ok i1, s1) => (Ok (h, i1), s1)
      | (Raise e, s1) => (Raise e, s1)
      end
  end.
Proof.
  destruct header as [h|].
  - unfold resolve_image1, bind. by destruct (project env f1 h kw s) as [[i1|e] s1].
  - unfold resolve_image1, pyfits_getheader, pyfits_getdata, bind, log, ret.
    simpl. repeat case_match; simplify_eq/=; rewrite <- ?app_assoc; done.
Qed.

Lemma resolve_images_raises f1 f2 header kw s e s' :
  resolve_images env f1 f2 header kw s = (Raise e, s') →
  e = UnboundLocalError "image" ∨ ∃ m, e = LibraryError m.
Proof.
  rewrite resolve_images_run, resolve_image1_run. unfold project.
  intros H. destruct header as [h|]; repeat case_match; simplify_eq/=;
    eauto using project_to_header_raises.
Qed.

(** C1: [match_fits] raises a [ValueError] exactly when the two images it
    has obtained differ in shape, and the two images it returns have the
    same shape. *)
Theorem match_fits_shape_check f1 f2 header sc rh kw s :
  ((∃ msg, (match_fits env f1 f2 header sc rh kw s).1 = Raise (ValueError msg))
   ↔ ∃ hdr i1 i2 s1,
       resolve_images env f1 f2 header kw s = (Ok (hdr, i1, i2), s1)
       ∧ shape i1 ≠ shape i2)
  ∧ (∀ r, (match_fits env f1 f2 header sc rh kw s).1 = Ok r →
       shape (returned_images r).1 = shape (returned_images r).2).
Proof.
  rewrite match_fits_run.
  destruct (resolve_images env f1 f2 header kw s) as [[[[hdr i1] i2]|e] s1] eqn:Hres.
  - rewrite apply_sigma_cut_run. destruct (decide (shape i1 ≠ shape i2)) as [Hne|Heq].
    + split; [|done]. split; [|by eauto]. intros _. by exists hdr, i1, i2, s1.
    + apply dec_stable in Heq. split.
      * split.
        { intros [msg H]; repeat case_match; simplify_eq/=;
            match goal with
            | H : times_sigma _ _ = Raise _ |- _ =>
                by apply times_sigma_raises in H as [_ ?]
            end. }
        intros (? & ? & ? & ? & ? & Hne); simplify_eq/=; by destruct Hne.
      * intros r Hr. repeat case_match; simplify_eq/=; by rewrite ?threshold_shape.
  - split; [|done]. split.
    + intros [msg H]; simplify_eq/=.
      apply resolve_images_raises in Hres as [?|[? ?]]; simplify_eq.
    + intros (? & ? & ? & ? & ? & _); simplify_eq.
Qed.

(** C6: with a falsy [sigma_cut] the two images come back as they were
    obtained, and nothing is printed. *)
Theorem match_fits_without_cut f1 f2 header sc rh kw s hdr i1 i2 s1 :
  truthy sc = false →
  resolve_images env f1 f2 header kw s = (Ok (hdr, i1, i2), s1) →
  shape i1 = shape i2 →
  match_fits env f1 f2 header sc rh kw s
  = (Ok (if rh then Triple i1 i2 hdr else Pair i1 i2), s1).
Proof.
  intros Hsc Hres Hsh. rewrite match_fits_run, Hres, apply_sigma_cut_run, Hsc.
  by rewrite decide_False by naive_solver.
Qed.

Lemma resolve_images_header f1 f2 h kw s hdr i1 i2 s1 :
  resolve_images env f1 f2 (Some h) kw s = (Ok (hdr, i1, i2), s1) → hdr = h.
Proof.
  rewrite resolve_images_run, resolve_image1_run.
  intros H. repeat case_match; by simplify_eq/=.
Qed.

(** C10: the tuple has two elements without [return_header] and three with
    it, and the third is the header the caller gave, as it was given. *)
Theorem match_fits_returned_header f1 f2 header sc rh kw s r s' :
  match_fits env f1 f2 header sc rh kw s = (Ok r, s') →
  arity r = (if rh then 3 else 2)
  ∧ (rh = false → returned_header r = None)
  ∧ (∀ h, header = Some h → rh = true → returned_header r = Some h).
Proof.
  rewrite match_fits_run.
  destruct (resolve_images env f1 f2 header kw s) as [[[[hdr i1] i2]|e] s1] eqn:Hres;
    [|done].
  rewrite apply_sigma_cut_run. intros H.
  split_and!.
  - repeat case_match; by simplify_eq/=.
  - intros ->. repeat case_match; by simplify_eq/=.
  - intros h -> ->. apply resolve_images_header in Hres as ->.
    repeat case_match; by simplify_eq/=.
Qed.

(** *** The calls of [project_to_header] made by [match_fits] *)

Lemma project_trace f h kw s r s' :
  project env f h kw s = (r, s') →
  ∃ evs, trace s' = trace s ++
           CallProject f h (default true (kw_use_montage kw))
             (default true (kw_quiet kw)) (kw_rest kw) :: evs
         ∧ project_calls evs = [].
Proof.
  unfold project. intros H.
  apply project_to_header_trace in H as (evs & Htr & Hpc & _). eauto.
Qed.




(** C5: without a header, the working header is the flattened header of
    file 1 and image 1 is the squeezed data of file 1, read without any call
    of [project_to_header] for it; the header returned on request is that
    flattened header. *)
Theorem match_fits_default_header f1 f2 sc rh kw s h1 d1 :
  disk s !! f1 = Some (FitsFile h1 d1) →
  resolve_image1 env f1 None kw s
  = (Ok (flatten_header env h1, squeeze d1),
     mk_state (disk s) (next_tmp s) (open_tmps s)
       (trace s ++ [CallGetHeader f1; CallGetData f1]))
  ∧ (∀ hdr i1 i2 s1,
       resolve_images env f1 f2 None kw s = (Ok (hdr, i1, i2), s1) →
       hdr = flatten_header env h1 ∧ i1 = squeeze d1
       ∧ project_calls (events_since s s1)
         = [CallProject f2 hdr (default true (kw_use_montage kw))
              (default true (kw_quiet kw)) (kw_rest kw)])
  ∧ (∀ r s', match_fits env f1 f2 None sc rh kw s = (Ok r, s') →
       returned_header r = if rh then Some (flatten_header env h1) else None).
Proof.
  intros Hf.
  assert (resolve_image1 env f1 None kw s
          = (Ok (flatten_header env h1, squeeze d1),
             mk_state (disk s) (next_tmp s) (open_tmps s)
               (trace s ++ [CallGetHeader f1; CallGetData f1]))) as H1.
  { by rewrite resolve_image1_run, Hf. }
  assert (∀ hdr i1 i2 s1,
       resolve_images env f1 f2 None kw s = (Ok (hdr, i1, i2), s1) →
       hdr = flatten_header env h1 ∧ i1 = squeeze d1
       ∧ project_calls (events_since s s1)
         = [CallProject f2 hdr (default true (kw_use_montage kw))
              (default true (kw_quiet kw)) (kw_rest kw)]) as H2.
  { intros hdr i1 i2 s1. rewrite resolve_images_run, H1.
    destruct (project env f2 _ kw _) as [[i2'|e] s2] eqn:Hp; [|done].
    intros ?; simplify_eq/=. split_and!; [done..|].
    apply project_trace in Hp as (evs & Htr & Hpc). simpl in Htr.
    rewrite <- app_assoc in Htr.
    rewrite (events_since_app _ _ _ Htr). simpl. by rewrite Hpc. }
  split_and!; [done..|].
  intros r s'. rewrite match_fits_run.
  destruct (resolve_images env f1 f2 None kw s) as [[[[hdr i1] i2]|e] s1] eqn:Hres;
    [|done].
  destruct (H2 _ _ _ _ eq_refl) as (-> & _ & _).
  rewrite apply_sigma_cut_run. intros H.
  repeat case_match; by simplify_eq/=.
Qed.

End Runs.

(** ** The sigma cut *)

(** *** Elements and their types *)

Section Element_facts.

Implicit Types x y : num.
Implicit Types d : dtype.

Lemma Num_eqb_refl x : Num.eqb x x = negb (Num.is_nan x).
Proof.
  destruct x as [x|z]; simpl; [apply F64_eqb_refl|apply Z.eqb_refl].
Qed.

Lemma wrap_in_range d (z : Z) : Dtype.in_range d z = true → Dtype.wrap d z = z.
Proof.
  unfold Dtype.in_range, Dtype.wrap. intros H.
  destruct d; apply andb_prop in H as [H1%Z.leb_le H2%Z.ltb_lt];
    simpl in *; rewrite Z.mod_small; lia.
Qed.

Lemma wrap_zero d : Dtype.wrap d 0 = 0%Z.
Proof. by destruct d. Qed.

Lemma in_range_64 d (z : Z) :
  Dtype.in_range d z = true → (- 2 ^ 63 ≤ z < 2 ^ 63)%Z.
Proof.
  unfold Dtype.in_range. intros H.
  destruct d; apply andb_prop in H as [H1%Z.leb_le H2%Z.ltb_lt];
    simpl in *; lia.
Qed.

(** What a valid element is. *)
Lemma valid_cases d x :
  Dtype.valid d x = true →
  (∃ f v, Dtype.float_of d = Some f ∧ Dtype.fmt d = f ∧ x = Flt v
          ∧ Flt.valid f v = true)
  ∨ (∃ z, Dtype.float_of d = None ∧ x = Int z ∧ Dtype.in_range d z = true).
Proof.
  unfold Dtype.valid. destruct d, x as [v|z]; simpl; try done; eauto 10.
Qed.

Lemma cast_same f v : Flt.cast f f v = v.
Proof. by destruct f. Qed.

(** The type two arrays promote to is a type of floats as soon as one of
    them is, wide enough for both. *)
Lemma promote_float d1 d2 :
  match Dtype.float_of (Dtype.promote d1 d2) with
  | Some g =>
      (∀ f, Dtype.float_of d1 = Some f → Flt.wider f g = g)
      ∧ (∀ f, Dtype.float_of d2 = Some f → Flt.wider f g = g)
  | None => Dtype.float_of d1 = None ∧ Dtype.float_of d2 = None
  end.
Proof. destruct d1, d2; simpl; split; intros; by simplify_eq. Qed.

(** A zeroed pixel, and a kept one. *)
Lemma mul_bool_false d x :
  Dtype.valid d x = true →
  mul_bool d x false
  = match x with
    | Flt v => if F64.is_finite v then Flt (S754_zero (F64.sign v))
               else Flt F64.nan
    | Int _ => Int 0
    end.
Proof.
  intros [(f & v & _ & <- & -> & Hv)|(z & _ & -> & Hz)]%valid_cases; simpl.
  - destruct (F64.is_finite v) eqn:Hf.
    + by rewrite F64_mul_zero_finite.
    + by rewrite F64_mul_zero_nonfinite.
  - by rewrite Z.mul_0_r, wrap_zero.
Qed.

Lemma mul_bool_true d x :
  Dtype.valid d x = true → mul_bool d x true = x.
Proof.
  intros [(f & v & _ & <- & -> & Hv)|(z & _ & -> & Hz)]%valid_cases; simpl.
  - by rewrite F64_mul_one.
  - by rewrite Z.mul_1_r, wrap_in_range.
Qed.


(** A masked pixel is the pixel, a zero, or a NaN. *)
Lemma mask_pixel_cases d t x :
  Dtype.valid d x = true →
  (above d t x = true ∧ mask_pixel d t x = x)
  ∨ (above d t x = false
     ∧ (Num.is_zero (mask_pixel d t x) = true
        ∨ (Num.is_nan (mask_pixel d t x) = true
           ∧ Num.is_finite x = false))).
Proof.
  intros Hv. unfold mask_pixel. destruct (above d t x).
  - left. split; [done|]. by apply mul_bool_true.
  - right. split; [done|]. rewrite mul_bool_false by done.
    destruct x as [v|z]; simpl; [|by left].
    destruct (F64.is_finite v); simpl; auto.
Qed.

End Element_facts.

(** *** The products that are summed *)

Section Product_facts.

Context {A : Type}.
Implicit Types mul : num → num → A.

Lemma threshold_data (img : image) t :
  data (threshold_at img t) = mask_pixel (dtype_of img) t <$> data img.
Proof.
  unfold threshold_at, nd_mul_mask, nd_gt, nd_zip_with, nd_map, mask_pixel.
  simpl. by rewrite zip_with_fmap_r, zip_with_diag.
Qed.

Lemma threshold_dtype (img : image) t :
  dtype_of (threshold_at img t) = dtype_of img.
Proof. done. Qed.

Lemma select_ok mul (l1 l2 : list num) :
  zip_with mul
    (select l1 (zip_with andb (zip_with Num.eqb l1 l1) (zip_with Num.eqb l2 l2)))
    (select l2 (zip_with andb (zip_with Num.eqb l1 l1) (zip_with Num.eqb l2 l2)))
  = (λ p, mul p.1 p.2) <$> List.filter both_numbers (zip l1 l2).
Proof.
  revert l2. induction l1 as [|a l1 IH]; intros [|b l2]; simpl; try done.
  unfold both_numbers at 1. simpl. rewrite !Num_eqb_refl.
  destruct (negb (Num.is_nan a) && negb (Num.is_nan b)); simpl;
    by rewrite IH.
Qed.

(** The products the code sums are the products at the positions where
    both elements are numbers. *)
Lemma overlap_products_positions mul (c1 c2 : image) :
  overlap_products mul c1 c2 = products_at_positions mul c1 c2.
Proof.
  unfold overlap_products, products_at_positions, nd_select, nd_and, nd_eq,
    nd_zip_with. simpl. apply select_ok.
Qed.

Lemma products_elem mul (c1 c2 : image) (p : A) :
  p ∈ products_at_positions mul c1 c2 ↔
  ∃ i x y, data c1 !! i = Some x ∧ data c2 !! i = Some y
           ∧ Num.is_nan x = false ∧ Num.is_nan y = false ∧ p = mul x y.
Proof.
  unfold products_at_positions. rewrite list_elem_of_fmap. split.
  - intros ([x y] & -> & Hin).
    apply list_elem_of_In, filter_In in Hin as [Hin%list_elem_of_In Hb].
    apply list_elem_of_lookup in Hin as [i Hi].
    apply lookup_zip_with_Some in Hi as (x' & y' & [= -> ->] & Hx & Hy).
    unfold both_numbers in Hb. simpl in Hb.
    apply andb_true_iff in Hb as [H1%negb_true_iff H2%negb_true_iff].
    by exists i, x', y'.
  - intros (i & x & y & Hx & Hy & H1 & H2 & ->). exists (x, y). split; [done|].
    apply list_elem_of_In, filter_In. split.
    + apply list_elem_of_In, list_elem_of_lookup. exists i.
      apply lookup_zip_with_Some. by exists x, y.
    + unfold both_numbers. simpl. by rewrite H1, H2.
Qed.

End Product_facts.

(** *** The cut and the standard deviation *)

Section Cut.

Variable env : Env.
Hypothesis laws : numpy_laws env.

Implicit Types x y : num.
Implicit Types img : image.

(** What the test of line 106 computes. *)
Lemma overlap_is_zero_positions (c1 c2 : image) :
  overlap_is_zero env c1 c2 =
  let d := Dtype.promote (dtype_of c1) (dtype_of c2) in
  match Dtype.float_of d with
  | Some g =>
      F64.eqb (np_sum env g
                 (products_at_positions
                    (float_product g (dtype_of c1) (dtype_of c2)) c1 c2))
              F64.zero
  | None => (sum_int d (products_at_positions (int_product d) c1 c2) =? 0)%Z
  end.
Proof.
  unfold overlap_is_zero. simpl.
  destruct (Dtype.float_of _); by rewrite overlap_products_positions.
Qed.

Lemma std_nan img :
  valid_image img →
  Exists (λ x, Num.is_finite x = false) (data img) →
  sc_val (std_of env img) = F64.nan.
Proof.
  intros Hv (x & Hin & Hx)%Exists_exists. unfold std_of. simpl.
  apply (np_std_nonfinite env laws). apply Exists_exists.
  exists (Dtype.to_float (dtype_of img) (Dtype.fmt (dtype_of img)) x).
  split; [apply list_elem_of_fmap; eauto|].
  destruct x as [v|z]; [|done]. simpl. by rewrite cast_same.
Qed.

Lemma times_sigma_nan (s t : scalar) sc :
  sc_val s = F64.nan → times_sigma s sc = Ok t → sc_val t = F64.nan.
Proof.
  unfold times_sigma. intros Hs.
  destruct sc; simpl; [| |]; repeat case_match; intros [= <-]; simpl;
    by rewrite Hs, ?cast_nan.
Qed.

Lemma above_nan d (t : scalar) x : sc_val t = F64.nan → above d t x = false.
Proof.
  unfold above, F64.gtb. intros ->. by rewrite cast_nan.
Qed.

(** A pixel passes the comparison only in an image without NaN and
    infinities. *)
Lemma kept_finite img sc (t : scalar) x :
  valid_image img →
  times_sigma (std_of env img) sc = Ok t →
  above (dtype_of img) t x = true →
  Forall (λ x, Num.is_finite x = true) (data img).
Proof.
  intros Hv Ht Hab.
  destruct (decide (Forall (λ x, Num.is_finite x = true) (data img)))
    as [|Hex]; [done|].
  apply not_Forall_Exists in Hex; [|solve_decision].
  assert (sc_val t = F64.nan) as Hnan.
  { eapply times_sigma_nan; [|exact Ht]. apply std_nan; [done|].
    eapply Exists_impl; [exact Hex|]. intros y Hy. simpl in Hy.
    by apply not_true_is_false. }
  by rewrite above_nan in Hab.
Qed.

(** A masked pixel that is a number is a finite number in any format as
    wide as its own. *)
Lemma corr_finite img sc (t : scalar) x g :
  valid_image img →
  times_sigma (std_of env img) sc = Ok t →
  x ∈ data img →
  (∀ f, Dtype.float_of (dtype_of img) = Some f → Flt.wider f g = g) →
  Num.is_nan (mask_pixel (dtype_of img) t x) = false →
  F64.is_finite (Dtype.to_float (dtype_of img) g
                   (mask_pixel (dtype_of img) t x)) = true.
Proof.
  intros Hv Ht Hin Hw Hn.
  assert (Dtype.valid (dtype_of img) x = true) as Hx
    by (unfold valid_image in Hv; rewrite Forall_forall in Hv; by apply Hv).
  unfold mask_pixel in *. destruct (above (dtype_of img) t x) eqn:Hab.
  - rewrite mul_bool_true by done.
    assert (Num.is_finite x = true) as Hf.
    { pose proof (kept_finite img sc t x Hv Ht Hab) as Hall.
      rewrite Forall_forall in Hall. by apply Hall. }
    apply valid_cases in Hx as [(f & v & Hd & Hfm & -> & Hvv)|(z & _ & -> & Hz)];
      simpl.
    + rewrite Hfm. apply cast_finite; auto.
    + apply of_Z_finite. by eapply in_range_64.
  - rewrite mul_bool_false in * by done.
    destruct x as [v|z]; simpl.
    + destruct (F64.is_finite v); [|done]. simpl. by rewrite cast_zero.
    + done.
Qed.

(** A product with a zero is a zero. *)
Lemma float_product_zero_l g d1 d2 x y :
  Num.is_zero x = true →
  F64.is_finite (Dtype.to_float d2 g y) = true →
  F64.is_zero (float_product g d1 d2 x y) = true.
Proof.
  intros Hx Hy. unfold float_product. apply F64_mul_is_zero_l; [|done].
  destruct x as [v|z]; simpl in *.
  - by apply cast_is_zero.
  - apply Z.eqb_eq in Hx as ->. by destruct g.
Qed.

Lemma float_product_zero_r g d1 d2 x y :
  F64.is_finite (Dtype.to_float d1 g x) = true →
  Num.is_zero y = true →
  F64.is_zero (float_product g d1 d2 x y) = true.
Proof.
  intros Hx Hy. unfold float_product. apply F64_mul_is_zero_r; [done|].
  destruct y as [v|z]; simpl in *.
  - by apply cast_is_zero.
  - apply Z.eqb_eq in Hy as ->. by destruct g.
Qed.

Lemma int_product_zero d x y :
  Num.is_nan x = false → Num.is_nan y = false →
  Num.is_zero x = true ∨ Num.is_zero y = true →
  int_product d x y = 0%Z.
Proof.
  unfold int_product. intros Hx Hy [H|H].
  - destruct x as [[]|z]; simpl in *; try done.
    + by rewrite wrap_zero.
    + apply Z.eqb_eq in H as ->. by rewrite wrap_zero.
  - destruct y as [[]|z]; simpl in *; try done.
    + by rewrite Z.mul_0_r, wrap_zero.
    + apply Z.eqb_eq in H as ->. by rewrite Z.mul_0_r, wrap_zero.
Qed.

Lemma sum_int_zeros d (l : list Z) :
  Forall (λ z, z = 0%Z) l → sum_int d l = 0%Z.
Proof.
  intros H. assert (foldr Z.add 0%Z l = 0%Z) as Hs.
  { induction H as [|z l -> _ IH]; simpl; [done|]. by rewrite IH. }
  unfold sum_int. rewrite Hs. by destruct d.
Qed.

(** The test of line 106 succeeds when every product is a zero. *)
Lemma overlap_zero (c1 c2 : image) :
  (∀ i x y, data c1 !! i = Some x → data c2 !! i = Some y →
     Num.is_nan x = false → Num.is_nan y = false →
     match Dtype.float_of (Dtype.promote (dtype_of c1) (dtype_of c2)) with
     | Some g =>
         F64.is_zero (float_product g (dtype_of c1) (dtype_of c2) x y) = true
     | None =>
         int_product (Dtype.promote (dtype_of c1) (dtype_of c2)) x y = 0%Z
     end) →
  overlap_is_zero env c1 c2 = true.
Proof.
  intros H. rewrite overlap_is_zero_positions. simpl.
  destruct (Dtype.float_of _) as [g|].
  - apply F64_is_zero_eqb, (np_sum_zeros env laws).
    apply Forall_forall. intros p (i & x & y & Hx & Hy & Hnx & Hny & ->)%products_elem.
    by eapply H.
  - apply Z.eqb_eq, sum_int_zeros.
    apply Forall_forall. intros p (i & x & y & Hx & Hy & Hnx & Hny & ->)%products_elem.
    by eapply H.
Qed.

(** Without a position where both pixels pass the comparison the cut is
    given up. *)
Lemma nothing_kept (i1 i2 : image) sc (t1 t2 : scalar) :
  valid_image i1 → valid_image i2 →
  times_sigma (std_of env i1) sc = Ok t1 →
  times_sigma (std_of env i2) sc = Ok t2 →
  (∀ i x1 x2, data i1 !! i = Some x1 → data i2 !! i = Some x2 →
     above (dtype_of i1) t1 x1 && above (dtype_of i2) t2 x2 = false) →
  overlap_is_zero env (threshold_at i1 t1) (threshold_at i2 t2) = true.
Proof.
  intros Hv1 Hv2 Ht1 Ht2 Hno. apply overlap_zero.
  intros i c1 c2 H1 H2 Hn1 Hn2.
  rewrite threshold_data, list_lookup_fmap in H1, H2.
  rewrite !threshold_dtype.
  destruct (data i1 !! i) as [x1|] eqn:Hx1; [|done].
  destruct (data i2 !! i) as [x2|] eqn:Hx2; [|done].
  simplify_eq/=.
  assert (x1 ∈ data i1) as Hin1 by (apply list_elem_of_lookup; eauto).
  assert (x2 ∈ data i2) as Hin2 by (apply list_elem_of_lookup; eauto).
  assert (Dtype.valid (dtype_of i1) x1 = true) as Hvx1
    by (unfold valid_image in Hv1; rewrite Forall_forall in Hv1; by apply Hv1).
  assert (Dtype.valid (dtype_of i2) x2 = true) as Hvx2
    by (unfold valid_image in Hv2; rewrite Forall_forall in Hv2; by apply Hv2).
  specialize (Hno i x1 x2 Hx1 Hx2).
  assert (Num.is_zero (mask_pixel (dtype_of i1) t1 x1) = true
          ∨ Num.is_zero (mask_pixel (dtype_of i2) t2 x2) = true) as Hz.
  { destruct (mask_pixel_cases (dtype_of i1) t1 x1 Hvx1)
      as [[Ha1 _]|[_ [?|[? _]]]]; [|by left|congruence].
    destruct (mask_pixel_cases (dtype_of i2) t2 x2 Hvx2)
      as [[Ha2 _]|[_ [?|[? _]]]]; [|by right|congruence].
    by rewrite Ha1, Ha2 in Hno. }
  pose proof (promote_float (dtype_of i1) (dtype_of i2)) as Hp.
  destruct (Dtype.float_of _) as [g|]; [|by apply int_product_zero].
  destruct Hp as [Hw1 Hw2]. destruct Hz as [Hz|Hz].
  - apply float_product_zero_l; [done|]. by eapply corr_finite.
  - apply float_product_zero_r; [|done]. by eapply corr_finite.
Qed.

(** A cut that is kept has met no NaN and no infinity. *)
Lemma overlap_nonzero_finite (i1 i2 : image) sc (t1 t2 : scalar) :
  valid_image i1 → valid_image i2 →
  times_sigma (std_of env i1) sc = Ok t1 →
  times_sigma (std_of env i2) sc = Ok t2 →
  overlap_is_zero env (threshold_at i1 t1) (threshold_at i2 t2) = false →
  Forall (λ x, Num.is_finite x = true) (data i1)
  ∧ Forall (λ x, Num.is_finite x = true) (data i2).
Proof.
  intros Hv1 Hv2 Ht1 Ht2 Hov.
  assert (∃ i x1 x2, data i1 !! i = Some x1 ∧ data i2 !! i = Some x2
            ∧ above (dtype_of i1) t1 x1 = true
            ∧ above (dtype_of i2) t2 x2 = true) as (i & x1 & x2 & _ & _ & H1 & H2).
  { destruct (decide (Exists (λ p, above (dtype_of i1) t1 p.1
                                   && above (dtype_of i2) t2 p.2 = true)
                        (zip (data i1) (data i2)))) as [Hex|Hno].
    - apply Exists_exists in Hex as ([x1 x2] & Hin & Hb).
      apply list_elem_of_lookup in Hin as [i Hi].
      apply lookup_zip_with_Some in Hi as (y1 & y2 & [= -> ->] & ? & ?).
      apply andb_true_iff in Hb as [? ?]. by exists i, y1, y2.
    - rewrite (nothing_kept i1 i2 sc t1 t2) in Hov; [done..|].
      intros i x1 x2 Hx1 Hx2. apply not_true_is_false. intros Hb.
      apply Hno, Exists_exists. exists (x1, x2). split; [|done].
      apply list_elem_of_lookup. exists i.
      apply lookup_zip_with_Some. by exists x1, x2. }
  split; by eapply kept_finite.
Qed.


End Cut.

(** *** Signs: a cut at a positive level *)

Section Cut_signs.

Variable env : Env.
Hypothesis laws : numpy_laws env.

Implicit Types x y : num.
Implicit Types img : image.

Lemma Flt_mul_not_neg f (s l : F64.t) :
  F64.ltb s F64.zero = false → F64.gtb l F64.zero = true →
  F64.ltb (Flt.mul f s l) F64.zero = false.
Proof.
  destruct s as [[]|[]| |[] m e], l as [[]|[]| |[] m' e']; try done.
  intros _ _. unfold Flt.mul, SFmul. simpl xorb.
  pose proof (binary_round_aux_sign f false (Z.pos (m * m')) (e + e') loc_Exact)
    as Hs.
  by destruct (binary_round_aux _ _ _ _ _ _) as [[]|[]| |[] m'' e''].
Qed.

(** A number above a threshold that is not negative is a positive number. *)
Lemma kept_positive (t v : F64.t) :
  F64.ltb t F64.zero = false → F64.gtb v t = true →
  F64.sign v = false ∧ F64.is_zero v = false ∧ F64.is_nan v = false.
Proof. by destruct t as [[]|[]| |[] m e], v as [[]|[]| |[] m' e']. Qed.

Lemma Flt_mul_nonneg f (v w : F64.t) :
  Flt.nonneg f v = true → Flt.nonneg f w = true →
  F64.is_inf v = false → F64.is_inf w = false →
  Flt.nonneg f (Flt.mul f v w) = true.
Proof.
  destruct v as [[]|[]| |[] m e], w as [[]|[]| |[] m' e']; try done.
  intros _ _ _ _. unfold Flt.mul, SFmul. simpl xorb.
  apply binary_round_aux_nonneg.
Qed.

Lemma is_finite_not_inf (v : F64.t) :
  F64.is_finite v = true → F64.is_inf v = false.
Proof. by destruct v. Qed.

(** At a positive level no threshold is negative. *)
Lemma threshold_not_neg img sc (t : scalar) :
  times_sigma (std_of env img) sc = Ok t →
  F64.gtb (level sc) F64.zero = true →
  F64.ltb (sc_val t) F64.zero = false.
Proof.
  unfold times_sigma. intros Ht Hl.
  pose proof (np_std_not_neg env laws (Dtype.fmt (dtype_of img))
                (Dtype.to_float (dtype_of img) (Dtype.fmt (dtype_of img))
                   <$> data img)) as Hstd.
  destruct sc as [[]|z|v]; simpl in *; try done.
  - injection Ht as <-. simpl. apply Flt_mul_not_neg; [done|].
    by destruct (Dtype.fmt _).
  - destruct (F64.is_inf _); [done|]. injection Ht as <-. simpl.
    apply Flt_mul_not_neg; [|done]. by apply cast_not_neg.
  - injection Ht as <-. simpl.
    apply Flt_mul_not_neg; [|done]. by apply cast_not_neg.
Qed.

(** A pixel above a threshold that is not negative is positive. *)
Lemma above_positive d (t : scalar) x :
  F64.ltb (sc_val t) F64.zero = false →
  above d t x = true →
  match x with
  | Flt v => F64.sign v = false ∧ F64.is_zero v = false ∧ F64.is_nan v = false
  | Int z => (0 < z)%Z
  end.
Proof.
  unfold above. intros Ht Hab.
  apply (cast_not_neg (sc_fmt t) (compare_fmt d t)) in Ht.
  destruct (kept_positive _ _ Ht Hab) as (Hs & Hz & Hn).
  destruct x as [v|z]; simpl in *.
  - destruct (cast_sign (Dtype.fmt d) (compare_fmt d t) v) as [_ Hsv].
    split_and!.
    + congruence.
    + destruct (F64.is_zero v) eqn:Hzv; [|done].
      by rewrite cast_is_zero in Hz.
    + destruct v; try done. by rewrite cast_nan in Hn.
  - by apply (of_Z_sign (compare_fmt d t)).
Qed.

(** A masked pixel that is a number is not a negative one, in any format
    as wide as its own. *)
Lemma corr_nonneg img sc (t : scalar) x g :
  valid_image img →
  times_sigma (std_of env img) sc = Ok t →
  F64.gtb (level sc) F64.zero = true →
  x ∈ data img →
  (∀ f, Dtype.float_of (dtype_of img) = Some f → Flt.wider f g = g) →
  Num.is_nan (mask_pixel (dtype_of img) t x) = false →
  Flt.nonneg g (Dtype.to_float (dtype_of img) g
                  (mask_pixel (dtype_of img) t x)) = true.
Proof.
  intros Hv Ht Hl Hin Hw Hn.
  assert (Dtype.valid (dtype_of img) x = true) as Hx
    by (unfold valid_image in Hv; rewrite Forall_forall in Hv; by apply Hv).
  unfold mask_pixel in *. destruct (above (dtype_of img) t x) eqn:Hab.
  - rewrite mul_bool_true by done.
    pose proof (above_positive _ _ _ (threshold_not_neg _ _ _ Ht Hl) Hab) as Hp.
    apply valid_cases in Hx as [(f & v & Hd & Hfm & -> & Hvv)|(z & _ & -> & Hz)];
      simpl.
    + destruct Hp as (? & ? & ?). rewrite Hfm. apply cast_nonneg; auto.
    + apply of_Z_nonneg. lia.
  - rewrite mul_bool_false in * by done.
    destruct x as [v|z]; simpl.
    + destruct (F64.is_finite v); [|done]. simpl. by rewrite cast_zero.
    + by destruct g.
Qed.

(** At a positive level no product is negative. *)
Lemma products_nonneg (i1 i2 : image) sc (t1 t2 : scalar) g :
  valid_image i1 → valid_image i2 →
  times_sigma (std_of env i1) sc = Ok t1 →
  times_sigma (std_of env i2) sc = Ok t2 →
  F64.gtb (level sc) F64.zero = true →
  Dtype.float_of (Dtype.promote (dtype_of i1) (dtype_of i2)) = Some g →
  Forall (λ p, Flt.nonneg g p = true)
    (products_at_positions (float_product g (dtype_of i1) (dtype_of i2))
       (threshold_at i1 t1) (threshold_at i2 t2)).
Proof.
  intros Hv1 Hv2 Ht1 Ht2 Hl Hg. apply Forall_forall.
  intros p (i & c1 & c2 & H1 & H2 & Hn1 & Hn2 & ->)%products_elem.
  rewrite threshold_data, list_lookup_fmap in H1, H2.
  destruct (data i1 !! i) as [x1|] eqn:Hx1; [|done].
  destruct (data i2 !! i) as [x2|] eqn:Hx2; [|done].
  simplify_eq/=.
  assert (x1 ∈ data i1) as Hin1 by (apply list_elem_of_lookup; eauto).
  assert (x2 ∈ data i2) as Hin2 by (apply list_elem_of_lookup; eauto).
  pose proof (promote_float (dtype_of i1) (dtype_of i2)) as Hp.
  rewrite Hg in Hp. destruct Hp as [Hw1 Hw2].
  unfold float_product. apply Flt_mul_nonneg.
  - by eapply corr_nonneg.
  - by eapply corr_nonneg.
  - apply is_finite_not_inf. by eapply corr_finite.
  - apply is_finite_not_inf. by eapply corr_finite.
Qed.

(** A masked pixel at a positive level is not below zero. *)
Lemma mask_pixel_not_negative img sc (t : scalar) x :
  valid_image img →
  times_sigma (std_of env img) sc = Ok t →
  F64.gtb (level sc) F64.zero = true →
  x ∈ data img →
  Num.is_negative (mask_pixel (dtype_of img) t x) = false.
Proof.
  intros Hv Ht Hl Hin.
  assert (Dtype.valid (dtype_of img) x = true) as Hx
    by (unfold valid_image in Hv; rewrite Forall_forall in Hv; by apply Hv).
  unfold mask_pixel. destruct (above (dtype_of img) t x) eqn:Hab.
  - rewrite mul_bool_true by done.
    pose proof (above_positive _ _ _ (threshold_not_neg _ _ _ Ht Hl) Hab) as Hp.
    destruct x as [v|z]; simpl.
    + destruct Hp as (? & ? & ?). by destruct v as [[]|[]| |[] m e].
    + apply Z.ltb_ge. lia.
  - rewrite mul_bool_false by done.
    destruct x as [v|z]; simpl; [|done]. by destruct (F64.is_finite v).
Qed.

End Cut_signs.

(** *** The cut inside match_fits *)

Section Cut_runs.

Variable env : Env.

(** What a run with [sigma_cut] set comes to, once the images and the
    thresholds are there. *)
Lemma match_fits_cut_run f1 f2 header sc rh kw s hdr i1 i2 s1 t1 t2 :
  resolve_images env f1 f2 header kw s = (Ok (hdr, i1, i2), s1) →
  shape i1 = shape i2 →
  truthy sc = true →
  times_sigma (std_of env i1) sc = Ok t1 →
  times_sigma (std_of env i2) sc = Ok t2 →
  match_fits env f1 f2 header sc rh kw s =
  if overlap_is_zero env (threshold_at i1 t1) (threshold_at i2 t2)
  then (Ok (if rh then Triple i1 i2 hdr else Pair i1 i2),
        mk_state (disk s1) (next_tmp s1) (open_tmps s1)
          (trace s1 ++ [PrintCutFailed sc]))
  else (Ok (if rh then Triple (threshold_at i1 t1) (threshold_at i2 t2) hdr
            else Pair (threshold_at i1 t1) (threshold_at i2 t2)), s1).
Proof.
  intros Hres Hsh Hsc Ht1 Ht2.
  rewrite match_fits_run, Hres, apply_sigma_cut_run, Hsc, Ht1, Ht2.
  rewrite decide_False by naive_solver.
  by destruct (overlap_is_zero _ _ _), rh.
Qed.

Lemma match_fits_fallback f1 f2 header sc rh kw s hdr i1 i2 s1 t1 t2 :
  resolve_images env f1 f2 header kw s = (Ok (hdr, i1, i2), s1) →
  shape i1 = shape i2 →
  truthy sc = true →
  times_sigma (std_of env i1) sc = Ok t1 →
  times_sigma (std_of env i2) sc = Ok t2 →
  overlap_is_zero env (threshold_at i1 t1) (threshold_at i2 t2) = true →
  ∃ r s', match_fits env f1 f2 header sc rh kw s = (Ok r, s')
          ∧ returned_images r = (i1, i2)
          ∧ events_since s1 s' = [PrintCutFailed sc].
Proof.
  intros Hres Hsh Hsc Ht1 Ht2 Hz.
  rewrite (match_fits_cut_run _ _ _ _ _ _ _ _ _ _ _ _ _ Hres Hsh Hsc Ht1 Ht2), Hz.
  eexists _, _. split; [done|]. split; [by destruct rh|].
  by apply events_since_app.
Qed.

Lemma match_fits_kept f1 f2 header sc rh kw s hdr i1 i2 s1 t1 t2 :
  resolve_images env f1 f2 header kw s = (Ok (hdr, i1, i2), s1) →
  shape i1 = shape i2 →
  truthy sc = true →
  times_sigma (std_of env i1) sc = Ok t1 →
  times_sigma (std_of env i2) sc = Ok t2 →
  overlap_is_zero env (threshold_at i1 t1) (threshold_at i2 t2) = false →
  ∃ r, match_fits env f1 f2 header sc rh kw s = (Ok r, s1)
       ∧ returned_images r = (threshold_at i1 t1, threshold_at i2 t2).
Proof.
  intros Hres Hsh Hsc Ht1 Ht2 Hz.
  rewrite (match_fits_cut_run _ _ _ _ _ _ _ _ _ _ _ _ _ Hres Hsh Hsc Ht1 Ht2), Hz.
  eexists. split; [done|]. by destruct rh.
Qed.

End Cut_runs.






(** C4 (as amended): with [sigma_cut] set, the two cut images are the
    obtained ones with each pixel masked by its own comparison, and the
    products that are summed are the products of their pixels at the
    positions where both are numbers, in the type the two images promote
    to.  When that sum is exactly zero the cut is given up, a message is
    printed and the images come back as they were obtained; when it is
    anything else the cut images come back.  One nonzero product among
    zeros, however small, is enough for that; and so is, at a positive
    level (the products are then not negative), a nonzero product at any
    one position. *)
Theorem match_fits_degenerate_cut env f1 f2 header sc rh kw s hdr i1 i2 s1
    t1 t2 :
  resolve_images env f1 f2 header kw s = (Ok (hdr, i1, i2), s1) →
  shape i1 = shape i2 →
  truthy sc = true →
  times_sigma (std_of env i1) sc = Ok t1 →
  times_sigma (std_of env i2) sc = Ok t2 →
  let d1 := dtype_of i1 in
  let d2 := dtype_of i2 in
  let d := Dtype.promote d1 d2 in
  let c1 := threshold_at i1 t1 in
  let c2 := threshold_at i2 t2 in
  let sum_is_zero :=
    match Dtype.float_of d with
    | Some g =>
        F64.eqb (np_sum env g
                   (products_at_positions (float_product g d1 d2) c1 c2))
                F64.zero
    | None =>
        (sum_int d (products_at_positions (int_product d) c1 c2) =? 0)%Z
    end in
  (dtype_of c1 = d1 ∧ data c1 = mask_pixel d1 t1 <$> data i1
   ∧ dtype_of c2 = d2 ∧ data c2 = mask_pixel d2 t2 <$> data i2)
  ∧ (sum_is_zero = true →
     ∃ r s', match_fits env f1 f2 header sc rh kw s = (Ok r, s')
             ∧ returned_images r = (i1, i2)
             ∧ events_since s1 s' = [PrintCutFailed sc])
  ∧ (sum_is_zero = false →
     ∃ r, match_fits env f1 f2 header sc rh kw s = (Ok r, s1)
          ∧ returned_images r = (c1, c2))
  ∧ (numpy_laws env →
     ∀ g l1 p l2, Dtype.float_of d = Some g →
       products_at_positions (float_product g d1 d2) c1 c2 = l1 ++ p :: l2 →
       Forall (λ x, F64.is_zero x = true) l1 →
       Forall (λ x, F64.is_zero x = true) l2 →
       F64.is_zero p = false →
       ∃ r, match_fits env f1 f2 header sc rh kw s = (Ok r, s1)
            ∧ returned_images r = (c1, c2))
  ∧ (numpy_laws env → valid_image i1 → valid_image i2 →
     F64.gtb (level sc) F64.zero = true →
     ∀ g i x y, Dtype.float_of d = Some g →
       data c1 !! i = Some x → data c2 !! i = Some y →
       Num.is_nan x = false → Num.is_nan y = false →
       F64.is_zero (float_product g d1 d2 x y) = false →
       ∃ r, match_fits env f1 f2 header sc rh kw s = (Ok r, s1)
            ∧ returned_images r = (c1, c2)).
Proof.
  intros Hres Hsh Hsc Ht1 Ht2 d1 d2 d c1 c2 sum_is_zero.
  assert (overlap_is_zero env c1 c2 = sum_is_zero) as Hov
    by apply overlap_is_zero_positions.
  split_and!.
  - done.
  - apply threshold_data.
  - done.
  - apply threshold_data.
  - intros Hz. eapply match_fits_fallback; [done..|]. by rewrite <- Hz.
  - intros Hnz. eapply match_fits_kept; [done..|]. by rewrite <- Hnz.
  - intros laws g l1 p l2 Hg Hp H1 H2 Hnz.
    eapply match_fits_kept; [done..|]. fold c1 c2. rewrite Hov.
    unfold sum_is_zero. rewrite Hg, Hp, (np_sum_single env laws) by done.
    destruct (F64.eqb p F64.zero) eqn:E; [|done].
    apply F64_eqb_zero_is_zero in E. congruence.
  - intros laws Hv1 Hv2 Hl g i x y Hg Hx Hy Hnx Hny Hnz.
    eapply match_fits_kept; [done..|]. fold c1 c2. rewrite Hov.
    unfold sum_is_zero. rewrite Hg.
    apply (np_sum_pos env laws).
    + by eapply products_nonneg.
    + apply Exists_exists. eexists. split; [|exact Hnz].
      apply products_elem. by exists i, x, y.
Qed.


(** ** The program at work *)

Section Examples.

Import Demo.

(** Montage can be imported, the caller does not want it, hcongrid is
    missing: no image, although a backend is there. *)
Lemma project_to_header_montage_unused :
  montageOK env_montage = true
  ∧ (project_to_header env_montage "a.fits" hdr_t false true [] s0).1
    = Raise (UnboundLocalError "image").
Proof. split; reflexivity. Qed.

(** C3: montage fails on [a.fits].  The exception leaves the call with both
    temporary files open and on the disk: the two [close()] of lines 54-55,
    which the other path runs, are not reached.  The files go away only
    when the interpreter finalises what the failed call held. *)
Lemma project_to_header_leaves_temp_files :
  let r := project_to_header env_broken "a.fits" hdr_t true true [] s0 in
  r.1 = Raise (LibraryError "MontageError")
  ∧ open_tmps r.2 = [1; 0]
  ∧ disk r.2 !! "/tmp/tmp0" = Some (TextFile "NAXIS CTYPE1")
  ∧ disk r.2 !! "/tmp/tmp1" = Some EmptyFile
  ∧ open_tmps (finalize env_broken 0 r.2) = []
  ∧ disk (finalize env_broken 0 r.2) !! "/tmp/tmp0" = None
  ∧ disk (finalize env_broken 0 r.2) !! "/tmp/tmp1" = None
  ∧ (project_to_header env_both "a.fits" hdr_t true true [] s0).1
    = Ok (squeeze img_a)
  ∧ open_tmps (project_to_header env_both "a.fits" hdr_t true true [] s0).2
    = [].
Proof. vm_compute. repeat split. Qed.

(** At a negative level pixels below zero survive the cut, and products of
    opposite signs can cancel: the products of [p.fits] and [n.fits] at the
    four positions are 1, -4, 3 and -0, three of them nonzero; their sum is
    zero and the cut is given up. *)
Lemma match_fits_products_cancel :
  let sc := SigmaInt (-1) in
  let t1 := mk_scalar B64
              (Flt.mul B64 (sc_val (std_of env_hcongrid img_p)) (level sc)) in
  let t2 := mk_scalar B64
              (Flt.mul B64 (sc_val (std_of env_hcongrid img_n)) (level sc)) in
  times_sigma (std_of env_hcongrid img_p) sc = Ok t1
  ∧ times_sigma (std_of env_hcongrid img_n) sc = Ok t2
  ∧ products_at_positions (float_product B64 Float64 Float64)
      (threshold_at img_p t1) (threshold_at img_n t2)
    = [f 1; f (-4); f 3; S754_zero true]
  ∧ (match_fits env_hcongrid "p.fits" "n.fits" None sc false kw0 s0).1
    = Ok (Pair img_p img_n).
Proof. vm_compute. repeat split. Qed.

(** Two files of different shapes. *)
Lemma match_fits_mismatch :
  (match_fits env_both "a.fits" "l.fits" None (SigmaInt 1) false kw0 s0).1
  = Raise (ValueError "Failed to reproject images to same shape.").
Proof. vm_compute. reflexivity. Qed.

Lemma match_fits_shape_check_witness :
  ∃ msg,
    (match_fits env_both "a.fits" "l.fits" None (SigmaInt 1) false kw0 s0).1
    = Raise (ValueError msg).
Proof.
  apply (proj1 (match_fits_shape_check env_both "a.fits" "l.fits" None
                  (SigmaInt 1) false kw0 s0)).
  exists (drop_history hdr_a), (squeeze img_a), img_l,
    (resolve_images env_both "a.fits" "l.fits" None kw0 s0).2.
  split; [vm_compute; reflexivity|]. by vm_compute.
Defined.

Lemma montage_temp_files_witness :
  match project_to_header env_both "a.fits" hdr_t true true [] s0 with
  | (Ok _, s') =>
      open_tmps s' = open_tmps s0
      ∧ disk s' !! tmp_name env_both (next_tmp s0) = None
      ∧ disk s' !! tmp_name env_both (S (next_tmp s0)) = None
  | (Raise _, s') =>
      next_tmp s0 ∈ open_tmps s' ∧ open_tmps s' ≠ open_tmps s0
  end.
Proof.
  apply (montage_temp_files env_both "a.fits" hdr_t true true [] s0).
  - reflexivity.
  - constructor.
Defined.

Lemma project_to_header_backend_witness :
  let run := project_to_header env_hcongrid "a.fits" hdr_t true true
               [("order", "1")] s0 in
  events_since s0 run.2
  = [CallProject "a.fits" hdr_t true true [("order", "1")];
     CallGetData "a.fits"; CallGetHeader "a.fits";
     CallHcongrid (squeeze img_a) (drop_history hdr_a) hdr_t [("order", "1")]]
  ∧ run.1 = Ok (squeeze img_a)
  ∧ disk run.2 = disk s0.
Proof.
  intros run.
  apply (project_to_header_backend env_hcongrid "a.fits" hdr_t true true
           [("order", "1")] s0 run.1 run.2); [| | |vm_compute]; reflexivity.
Defined.

Lemma match_fits_without_cut_witness :
  match_fits env_both "a.fits" "b.fits" None (SigmaBool false) true kw0 s0
  = (Ok (Triple (squeeze img_a) img_b (drop_history hdr_a)),
     (resolve_images env_both "a.fits" "b.fits" None kw0 s0).2).
Proof.
  apply (match_fits_without_cut env_both "a.fits" "b.fits" None
           (SigmaBool false) true kw0 s0);
    [reflexivity|vm_compute; reflexivity|reflexivity].
Defined.

Lemma match_fits_returned_header_witness :
  arity (Triple (squeeze img_a) (squeeze img_b) hdr_t) = 3
  ∧ returned_header (Triple (squeeze img_a) (squeeze img_b) hdr_t) = Some hdr_t.
Proof.
  destruct (match_fits_returned_header env_both "a.fits" "b.fits" (Some hdr_t)
              (SigmaBool false) true kw0 s0
              (Triple (squeeze img_a) (squeeze img_b) hdr_t)
              (match_fits env_both "a.fits" "b.fits" (Some hdr_t)
                 (SigmaBool false) true kw0 s0).2) as (Ha & _ & Hh).
  - vm_compute. reflexivity.
  - split; [exact Ha|]. exact (Hh hdr_t eq_refl eq_refl).
Defined.


Lemma match_fits_default_header_witness :
  resolve_image1 env_hcongrid "a.fits" None kw0 s0
  = (Ok (drop_history hdr_a, squeeze img_a),
     mk_state disk0 0 [] [CallGetHeader "a.fits"; CallGetData "a.fits"]).
Proof.
  apply (match_fits_default_header env_hcongrid "a.fits" "b.fits" (SigmaInt 1)
           true kw0 s0 hdr_a img_a).
  vm_compute. reflexivity.
Defined.

(** Every pixel of [c.fits] that survives the cut meets a zero of
    [d.fits]: the cut is given up. *)
Lemma match_fits_degenerate_cut_witness :
  ∃ r s', match_fits env_hcongrid "c.fits" "d.fits" None (SigmaInt 1) false kw0 s0
          = (Ok r, s')
          ∧ returned_images r = (img_c, img_d)
          ∧ events_since (resolve_images env_hcongrid "c.fits" "d.fits" None kw0 s0).2 s'
            = [PrintCutFailed (SigmaInt 1)].
Proof.
  edestruct (match_fits_degenerate_cut env_hcongrid "c.fits" "d.fits" None
               (SigmaInt 1) false kw0 s0 (drop_history hdr_b) img_c img_d
               (resolve_images env_hcongrid "c.fits" "d.fits" None kw0 s0).2
               (mk_scalar B64
                  (Flt.mul B64 (sc_val (std_of env_hcongrid img_c))
                     (level (SigmaInt 1))))
               (mk_scalar B64
                  (Flt.mul B64 (sc_val (std_of env_hcongrid img_d))
                     (level (SigmaInt 1)))))
    as (_ & Hgiven_up & _).
  - vm_compute. reflexivity.
  - reflexivity.
  - reflexivity.
  - vm_compute. reflexivity.
  - vm_compute. reflexivity.
  - apply Hgiven_up. vm_compute. reflexivity.
Defined.


(** A float equal to the threshold taken to its format is zeroed, also
    when the threshold as a double is below it. *)
Remark float32_pixel_at_threshold :
  F64.gtb (Flt.cast B32 B64 (f32 1)) below_one = true
  ∧ above Float32 (mk_scalar B64 below_one) (Flt (f32 1)) = false
  ∧ cut_pixel Float32 (mk_scalar B64 below_one) (Flt (f32 1))
    = Flt (S754_zero false).
Proof. vm_compute. repeat split. Qed.

(** Products of 16-bit integers wrap around: 200 * 200 is -25536 and
    168 * 152 is 25536, so the sum is zero and the cut is given up although
    both products are nonzero and the level is positive. *)
Remark match_fits_integer_products_cancel :
  products_at_positions (int_product Int16)
    (mk_image Int16 (mk_ndarray [2] [Int 200; Int 168]))
    (mk_image Int16 (mk_ndarray [2] [Int 200; Int 152]))
  = [-25536; 25536]%Z
  ∧ (match_fits env_hcongrid "i.fits" "j.fits" None (SigmaInt 1) false kw0
       s_k).1
    = Ok (Pair img_i img_j).
Proof. vm_compute. repeat split. Qed.

(** An int that no double can hold. *)
Remark match_fits_sigma_overflow :
  (match_fits env_hcongrid "a.fits" "b.fits" None (SigmaInt (10 ^ 400)) false
     kw0 s0).1
  = Raise (OverflowError "long int too large to convert to float").
Proof. vm_compute. reflexivity. Qed.

End Examples.

(** * More of the two functions *)

(** ** Temporary files and the disk *)

Section State_facts.

Variable env : Env.

(** What a call of [project_to_header] does to the temporary files and the
    disk. *)
Lemma project_to_header_state f h um q kw s r s' :
  project_to_header env f h um q kw s = (r, s') →
  next_tmp s ≤ next_tmp s'
  ∧ (wf_state s → wf_state s')
  ∧ (wf_state s → (∃ img, r = Ok img) →
       open_tmps s' = open_tmps s
       ∧ next_tmp s' = next_tmp s + (if montageOK env && um then 2 else 0))
  ∧ (montageOK env && um = false →
       disk s' = disk s ∧ next_tmp s' = next_tmp s
       ∧ open_tmps s' = open_tmps s).
Proof.
  unfold wf_state. unfold_run. simpl. intros Hrun.
  destruct (montageOK env && um) eqn:Hsel; step_run; simpl.
  all: split_and!; try done; try lia; try (by intros _ [? ?]).
  all: try (intros Hwf; repeat (apply Forall_cons; split; [lia|]);
            by eapply Forall_impl; [exact Hwf|]; simpl; intros; lia).
  - intros Hwf.
    rewrite (filter_cons_False _ (S (next_tmp s))) by naive_solver.
    rewrite (filter_cons_True _ (next_tmp s)) by lia.
    rewrite (filter_ne_fresh (open_tmps s) (next_tmp s) (S (next_tmp s)))
      by (done || lia).
    rewrite (filter_cons_False _ (next_tmp s)) by naive_solver.
    rewrite (filter_ne_fresh _ (next_tmp s)) by done.
    by eapply Forall_impl; [exact Hwf|]; simpl; intros; lia.
  - intros Hwf _. split; [|lia].
    rewrite (filter_cons_False _ (S (next_tmp s))) by naive_solver.
    rewrite (filter_cons_True _ (next_tmp s)) by lia.
    rewrite (filter_ne_fresh (open_tmps s) (next_tmp s) (S (next_tmp s)))
      by (done || lia).
    rewrite (filter_cons_False _ (next_tmp s)) by naive_solver.
    by apply (filter_ne_fresh _ (next_tmp s)).
Qed.

(** The temporary files a call leaves open are its own, on top of those
    that were open before. *)
Lemma project_to_header_open f h um q kw s r s' :
  wf_state s →
  project_to_header env f h um q kw s = (r, s') →
  ∃ new, open_tmps s' = new ++ open_tmps s
         ∧ Forall (λ i, next_tmp s ≤ i ∧ i < next_tmp s') new
         ∧ ((∃ img, r = Ok img) → new = []).
Proof.
  unfold wf_state. intros Hwf. unfold_run. simpl. intros Hrun.
  destruct (montageOK env && um) eqn:Hsel; step_run; simpl.
  all: first
    [ by exists []
    | exists [S (next_tmp s); next_tmp s];
      split_and!; [done|repeat constructor; lia|by intros [? ?]]
    | exists [next_tmp s];
      split_and!; [done|repeat constructor; lia|by intros [? ?]]
    | idtac ].
  exists []. split_and!; [|done..].
  rewrite (filter_cons_False _ (S (next_tmp s))) by naive_solver.
  rewrite (filter_cons_True _ (next_tmp s)) by lia.
  rewrite (filter_ne_fresh (open_tmps s) (next_tmp s) (S (next_tmp s)))
    by (done || lia).
  rewrite (filter_cons_False _ (next_tmp s)) by naive_solver.
  by apply (filter_ne_fresh _ (next_tmp s)).
Qed.

(** The three stages of [match_fits]: image 1, image 2, and the rest,
    which touches neither the disk nor the temporary files. *)
Lemma match_fits_stages f1 f2 header sc rh kw s :
  (∃ e s1, resolve_image1 env f1 header kw s = (Raise e, s1)
           ∧ match_fits env f1 f2 header sc rh kw s = (Raise e, s1))
  ∨ (∃ hdr i1 s1 e s2,
       resolve_image1 env f1 header kw s = (Ok (hdr, i1), s1)
       ∧ project env f2 hdr kw s1 = (Raise e, s2)
       ∧ match_fits env f1 f2 header sc rh kw s = (Raise e, s2))
  ∨ (∃ hdr i1 s1 i2 s2 r s',
       resolve_image1 env f1 header kw s = (Ok (hdr, i1), s1)
       ∧ project env f2 hdr kw s1 = (Ok i2, s2)
       ∧ match_fits env f1 f2 header sc rh kw s = (r, s')
       ∧ disk s' = disk s2 ∧ next_tmp s' = next_tmp s2
       ∧ open_tmps s' = open_tmps s2).
Proof.
  rewrite match_fits_run, resolve_images_run.
  destruct (resolve_image1 env f1 header kw s) as [[[hdr i1]|e] s1];
    [|left; by exists e, s1].
  destruct (project env f2 hdr kw s1) as [[i2|e] s2] eqn:H2;
    [|right; left; exists hdr, i1, s1, e, s2; by rewrite H2].
  right; right. exists hdr, i1, s1, i2, s2. rewrite H2.
  destruct (decide _); [by eexists _, _|].
  rewrite apply_sigma_cut_run.
  destruct (truthy sc); [|by eexists _, _].
  destruct (times_sigma (std_of env i1) sc); [|by eexists _, _].
  destruct (times_sigma (std_of env i2) sc); [|by eexists _, _].
  destruct (overlap_is_zero _ _ _); by eexists _, _.
Qed.

(** Image 1 by itself: read from the file, or projected. *)
Lemma resolve_image1_stage f1 header kw s r s1 :
  resolve_image1 env f1 header kw s = (r, s1) →
  match header with
  | None => disk s1 = disk s ∧ next_tmp s1 = next_tmp s
            ∧ open_tmps s1 = open_tmps s
  | Some h =>
      ∃ r', project_to_header env f1 h (default true (kw_use_montage kw))
              (default true (kw_quiet kw)) (kw_rest kw) s = (r', s1)
            ∧ ((∃ x, r = Ok x) ↔ (∃ img, r' = Ok img))
  end.
Proof.
  rewrite resolve_image1_run. destruct header as [h|].
  - unfold project.
    destruct (project_to_header env f1 h _ _ _ s) as [[i1|e] s1'];
      intros ?; simplify_eq; eexists; (split; [done|]); split;
      intros [? ?]; by eauto.
  - intros ?. by repeat case_match; simplify_eq/=.
Qed.

(** X1: when [match_fits] returns, every temporary file made during the
    call has been closed; two were made for each projection by montage
    (two projections with a header given, one without), none otherwise. *)
Theorem match_fits_temp_files_closed f1 f2 header sc rh kw s r s' :
  wf_state s →
  match_fits env f1 f2 header sc rh kw s = (Ok r, s') →
  open_tmps s' = open_tmps s
  ∧ next_tmp s' =
      next_tmp s +
      (if montageOK env && default true (kw_use_montage kw)
       then match header with Some _ => 4 | None => 2 end
       else 0).
Proof.
  intros Hwf Hrun.
  destruct (match_fits_stages f1 f2 header sc rh kw s)
    as [(e & s1 & _ & H)|[(hdr & i1 & s1 & e & s2 & _ & _ & H)
       |(hdr & i1 & s1 & i2 & s2 & r' & s'' & H1 & H2 & H & Hd & Hn & Ho)]];
    rewrite Hrun in H; simplify_eq.
  rewrite Ho, Hn. unfold project in H2.
  apply resolve_image1_stage in H1. destruct header as [h|].
  - destruct H1 as (r1 & H1 & Hok).
    destruct (project_to_header_state _ _ _ _ _ _ _ _ H1) as (_ & Hwf1 & Hs1 & _).
    destruct (Hs1 Hwf) as [Ho1 Hn1]; [apply Hok; by eauto|].
    destruct (project_to_header_state _ _ _ _ _ _ _ _ H2) as (_ & _ & Hs2 & _).
    destruct (Hs2 (Hwf1 Hwf)) as [Ho2 Hn2]; [by eauto|].
    rewrite Ho2, Ho1, Hn2, Hn1. split; [done|].
    destruct (montageOK env && _); lia.
  - destruct H1 as (Hd1 & Hn1 & Ho1).
    assert (wf_state s1) as Hwf1 by (unfold wf_state; by rewrite Ho1, Hn1).
    destruct (project_to_header_state _ _ _ _ _ _ _ _ H2) as (_ & _ & Hs2 & _).
    destruct (Hs2 Hwf1) as [Ho2 Hn2]; [by eauto|].
    by rewrite Ho2, Ho1, Hn2, Hn1.
Qed.

(** X2: whatever the outcome of [match_fits], the temporary files that were
    open before the call are still open after it, in the same order, and
    those it leaves open on top of them were made during the call. *)
Theorem match_fits_open_temp_files f1 f2 header sc rh kw s :
  wf_state s →
  let s' := (match_fits env f1 f2 header sc rh kw s).2 in
  wf_state s'
  ∧ ∃ new, open_tmps s' = new ++ open_tmps s
           ∧ Forall (λ i, next_tmp s ≤ i ∧ i < next_tmp s') new.
Proof.
  intros Hwf s'.
  assert (∀ h s0 r1 s1, wf_state s0 →
    project env h.1 h.2 kw s0 = (r1, s1) →
    wf_state s1 ∧ next_tmp s0 ≤ next_tmp s1
    ∧ ∃ new, open_tmps s1 = new ++ open_tmps s0
             ∧ Forall (λ i, next_tmp s0 ≤ i ∧ i < next_tmp s1) new) as Hp.
  { intros [f h] s0 r1 s1 Hwf0 Hr. unfold project in Hr. simpl in Hr.
    destruct (project_to_header_state _ _ _ _ _ _ _ _ Hr) as (Hle & Hw & _).
    destruct (project_to_header_open _ _ _ _ _ _ _ _ Hwf0 Hr)
      as (new & Ho & Hnew & _). by eauto 10. }
  assert (∀ r1 s1, resolve_image1 env f1 header kw s = (r1, s1) →
    wf_state s1 ∧ next_tmp s ≤ next_tmp s1
    ∧ ∃ new, open_tmps s1 = new ++ open_tmps s
             ∧ Forall (λ i, next_tmp s ≤ i ∧ i < next_tmp s1) new) as H1.
  { intros r1 s1 Hr. apply resolve_image1_stage in Hr.
    destruct header as [h|].
    - destruct Hr as (r' & Hr & _). by apply (Hp (f1, h) s r' s1).
    - destruct Hr as (Hd & Hn & Ho). split_and!.
      + unfold wf_state. by rewrite Ho, Hn.
      + lia.
      + exists []. by rewrite Ho. }
  destruct (match_fits_stages f1 f2 header sc rh kw s)
    as [(e & s1 & Hr1 & H)|[(hdr & i1 & s1 & e & s2 & Hr1 & Hr2 & H)
       |(hdr & i1 & s1 & i2 & s2 & r' & s'' & Hr1 & Hr2 & H & Hd & Hn & Ho)]];
    unfold s'; rewrite H; simpl.
  - destruct (H1 _ _ Hr1) as (? & ? & ?). by split.
  - destruct (H1 _ _ Hr1) as (Hw1 & Hle1 & new1 & Ho1 & Hnew1).
    destruct (Hp (f2, hdr) s1 _ s2 Hw1 Hr2) as (Hw2 & Hle2 & new2 & Ho2 & Hnew2).
    split; [done|]. exists (new2 ++ new1).
    rewrite Ho2, Ho1, app_assoc. split; [done|].
    apply Forall_app. split; (eapply Forall_impl; [eassumption|]);
      simpl; intros; lia.
  - destruct (H1 _ _ Hr1) as (Hw1 & Hle1 & new1 & Ho1 & Hnew1).
    destruct (Hp (f2, hdr) s1 _ s2 Hw1 Hr2) as (Hw2 & Hle2 & new2 & Ho2 & Hnew2).
    split; [unfold wf_state; by rewrite Ho, Hn|]. exists (new2 ++ new1).
    rewrite Ho, Hn, Ho2, Ho1, app_assoc. split; [done|].
    apply Forall_app. split; (eapply Forall_impl; [eassumption|]);
      simpl; intros; lia.
Qed.

(** X3: when the montage branch is not taken (montage missing, or
    [use_montage] false among the keyword arguments), [match_fits] only
    reads: whatever its outcome, the disk and the temporary files are as
    they were. *)
Theorem match_fits_reads_only f1 f2 header sc rh kw s :
  montageOK env && default true (kw_use_montage kw) = false →
  let s' := (match_fits env f1 f2 header sc rh kw s).2 in
  disk s' = disk s ∧ next_tmp s' = next_tmp s ∧ open_tmps s' = open_tmps s.
Proof.
  intros Hsel s'.
  assert (∀ f h s0 r1 s1, project env f h kw s0 = (r1, s1) →
    disk s1 = disk s0 ∧ next_tmp s1 = next_tmp s0
    ∧ open_tmps s1 = open_tmps s0) as Hp.
  { intros f h s0 r1 s1 Hr. unfold project in Hr.
    destruct (project_to_header_state _ _ _ _ _ _ _ _ Hr) as (_ & _ & _ & Hf).
    by apply Hf. }
  assert (∀ r1 s1, resolve_image1 env f1 header kw s = (r1, s1) →
    disk s1 = disk s ∧ next_tmp s1 = next_tmp s
    ∧ open_tmps s1 = open_tmps s) as H1.
  { intros r1 s1 Hr. apply resolve_image1_stage in Hr.
    destruct header as [h|]; [|done].
    destruct Hr as (r' & Hr & _). by apply (Hp f1 h s r' s1). }
  destruct (match_fits_stages f1 f2 header sc rh kw s)
    as [(e & s1 & Hr1 & H)|[(hdr & i1 & s1 & e & s2 & Hr1 & Hr2 & H)
       |(hdr & i1 & s1 & i2 & s2 & r' & s'' & Hr1 & Hr2 & H & Hd & Hn & Ho)]];
    unfold s'; rewrite H; simpl.
  - by apply (H1 _ _ Hr1).
  - destruct (H1 _ _ Hr1) as (? & ? & ?).
    destruct (Hp _ _ _ _ _ Hr2) as (? & ? & ?). split_and!; congruence.
  - destruct (H1 _ _ Hr1) as (? & ? & ?).
    destruct (Hp _ _ _ _ _ Hr2) as (? & ? & ?). split_and!; congruence.
Qed.

End State_facts.

(** ** The two branches of [project_to_header] *)

Section Branch_facts.

Variable env : Env.

(** X4: montage is called at most in one way: on the file given, with the
    two temporary files of the call, [exact_size] true and [silent_cleanup]
    as [quiet] says, after the header has been written to the first
    temporary file.  When the call returns, the events are these four and
    the image is the one found in the output file as montage left it. *)
Theorem project_to_header_montage_call f h um q kw s r s' :
  project_to_header env f h um q kw s = (r, s') →
  let hname := tmp_name env (next_tmp s) in
  let oname := tmp_name env (S (next_tmp s)) in
  (∀ a b c x y, CallMontage a b c x y ∈ events_since s s' →
     a = f ∧ b = oname ∧ c = hname ∧ x = true ∧ y = q
     ∧ CallToTxtFile h hname ∈ events_since s s')
  ∧ (∀ img, montageOK env && um = true → r = Ok img →
       events_since s s'
       = [CallProject f h um q kw; CallToTxtFile h hname;
          CallMontage f oname hname true q; CallGetData oname]
       ∧ ∃ d1 d2 hdr,
           toTxtFile env h hname (<[hname := EmptyFile]> (disk s)) = inr d1
           ∧ montage_reproject env f oname hname true q
               (<[oname := EmptyFile]> d1) = inr d2
           ∧ d2 !! oname = Some (FitsFile hdr img)
           ∧ disk s' = delete hname (delete oname d2)).
Proof.
  unfold events_since. unfold_run. simpl. intros Hrun.
  destruct (montageOK env && um) eqn:Hsel; step_run; simpl;
    rewrite <- ?app_assoc, ?drop_app_length; simpl.
  all: split;
    [intros ? ? ? ? ? Hin; repeat (apply elem_of_cons in Hin as [Hin|Hin]);
     simplify_eq; try (by inversion Hin); split_and!; try done;
     apply list_elem_of_In; simpl; tauto|].
  all: intros img ? ?; simplify_eq.
  split; [done|]. by eexists _, _, _.
Qed.

(** X5: on the montage branch a failure is the failure of one of the three
    library calls, passed on as it is: of [toTxtFile]; or, the header
    written, of montage; or, montage done, of reading an output file that
    holds no image.  After the first two the output file is never read. *)
Theorem project_to_header_montage_failure f h um q kw s e s' :
  montageOK env && um = true →
  project_to_header env f h um q kw s = (Raise e, s') →
  let hname := tmp_name env (next_tmp s) in
  let oname := tmp_name env (S (next_tmp s)) in
  (∃ m, e = LibraryError m
        ∧ toTxtFile env h hname (<[hname := EmptyFile]> (disk s)) = inl m
        ∧ events_since s s' = [CallProject f h um q kw; CallToTxtFile h hname])
  ∨ (∃ m d1, e = LibraryError m
        ∧ toTxtFile env h hname (<[hname := EmptyFile]> (disk s)) = inr d1
        ∧ montage_reproject env f oname hname true q
            (<[oname := EmptyFile]> d1) = inl m
        ∧ events_since s s'
          = [CallProject f h um q kw; CallToTxtFile h hname;
             CallMontage f oname hname true q])
  ∨ (∃ d1 d2, e = LibraryError "IOError"
        ∧ toTxtFile env h hname (<[hname := EmptyFile]> (disk s)) = inr d1
        ∧ montage_reproject env f oname hname true q
            (<[oname := EmptyFile]> d1) = inr d2
        ∧ (∀ hdr img, d2 !! oname ≠ Some (FitsFile hdr img))
        ∧ events_since s s'
          = [CallProject f h um q kw; CallToTxtFile h hname;
             CallMontage f oname hname true q; CallGetData oname]).
Proof.
  intros Hsel. unfold events_since. unfold_run. simpl. rewrite Hsel.
  intros Hrun. step_run; simpl;
    rewrite <- ?app_assoc, ?drop_app_length; simpl.
  all: first
    [ left; by eexists
    | right; left; by eexists _, _
    | right; right; eexists _, _; split_and!; [done..|congruence|done] ].
Qed.

(** X6: on the hcongrid branch, when pyfits cannot read the file, its
    failure is passed on and hcongrid is not called. *)
Theorem project_to_header_unreadable f h um q kw s :
  montageOK env && um = false → hcongridOK env = true →
  (∀ hd d, disk s !! f ≠ Some (FitsFile hd d)) →
  project_to_header env f h um q kw s
  = (Raise (LibraryError "IOError"),
     mk_state (disk s) (next_tmp s) (open_tmps s)
       (trace s ++ [CallProject f h um q kw; CallGetData f])).
Proof.
  intros Hsel Hhc Hf. unfold_run. simpl. rewrite Hsel, Hhc. simpl.
  destruct (disk s !! f) as [[hd d| |]|] eqn:E;
    rewrite <- ?app_assoc; simpl; try done.
  by destruct (Hf hd d).
Qed.

End Branch_facts.

(** ** Failures and the message of [match_fits] *)

Section Match_facts.

Variable env : Env.

(** X7: with no branch of [project_to_header] to take (montage missing or
    not wanted, hcongrid missing), [match_fits] never returns: it stops at
    the unbound [image] of the first projection, or before it, without a
    header, at a file 1 that cannot be read. *)
Theorem match_fits_no_backend f1 f2 header sc rh kw s :
  montageOK env && default true (kw_use_montage kw) = false →
  hcongridOK env = false →
  (match_fits env f1 f2 header sc rh kw s).1 =
  match header, disk s !! f1 with
  | Some _, _ | None, Some (FitsFile _ _) => Raise (UnboundLocalError "image")
  | None, _ => Raise (LibraryError "IOError")
  end.
Proof.
  intros Hsel Hhc.
  rewrite match_fits_run, resolve_images_run, resolve_image1_run.
  unfold project, project_to_header, bind, log, raise. simpl.
  rewrite Hsel, Hhc.
  destruct header as [h|]; [done|].
  by destruct (disk s !! f1) as [[hd d| |]|].
Qed.

(** X8: with a header given, a failure of the projection of file 1 is the
    failure of [match_fits], as it is, and file 2 is not touched: no second
    call of [project_to_header] is made. *)
Theorem match_fits_first_projection_fails f1 f2 h sc rh kw s e s1 :
  project env f1 h kw s = (Raise e, s1) →
  match_fits env f1 f2 (Some h) sc rh kw s = (Raise e, s1)
  ∧ project_calls (events_since s s1)
    = [CallProject f1 h (default true (kw_use_montage kw))
         (default true (kw_quiet kw)) (kw_rest kw)].
Proof.
  intros Hp. split.
  - by rewrite match_fits_run, resolve_images_run, resolve_image1_run, Hp.
  - apply project_trace in Hp as (evs & Htr & Hpc).
    rewrite (events_since_app _ _ _ Htr). simpl. by rewrite Hpc.
Qed.

(** X9: without a header, when file 1 cannot be read, [match_fits] fails
    with the failure of pyfits at its first step: nothing is projected and
    file 2 is not touched. *)
Theorem match_fits_unreadable_file1 f1 f2 sc rh kw s :
  (∀ hd d, disk s !! f1 ≠ Some (FitsFile hd d)) →
  match_fits env f1 f2 None sc rh kw s
  = (Raise (LibraryError "IOError"),
     mk_state (disk s) (next_tmp s) (open_tmps s)
       (trace s ++ [CallGetHeader f1])).
Proof.
  intros Hf. rewrite match_fits_run, resolve_images_run, resolve_image1_run.
  destruct (disk s !! f1) as [[hd d| |]|] eqn:E; try done.
  by destruct (Hf hd d).
Qed.

Lemma project_no_print f h kw s r s' :
  project env f h kw s = (r, s') →
  ∃ evs, trace s' = trace s ++ evs ∧ List.filter is_print evs = [].
Proof.
  unfold project. unfold_run. simpl. intros Hrun.
  destruct (montageOK env && _); step_run; simpl; rewrite <- ?app_assoc;
    by eexists.
Qed.

Lemma resolve_images_no_print f1 f2 header kw s r s' :
  resolve_images env f1 f2 header kw s = (r, s') →
  ∃ evs, trace s' = trace s ++ evs ∧ List.filter is_print evs = [].
Proof.
  rewrite resolve_images_run, resolve_image1_run. intros Hrun.
  assert (∀ hdr s1 evs1, trace s1 = trace s ++ evs1 →
    List.filter is_print evs1 = [] →
    ∀ r2 s2, project env f2 hdr kw s1 = (r2, s2) →
    ∃ evs, trace s2 = trace s ++ evs ∧ List.filter is_print evs = []) as H2.
  { intros hdr s1 evs1 Htr1 Hf1 r2 s2 (evs2 & Htr2 & Hf2)%project_no_print.
    exists (evs1 ++ evs2). rewrite Htr2, Htr1, <- app_assoc.
    split; [done|]. by rewrite List.filter_app, Hf1, Hf2. }
  destruct header as [h|].
  - destruct (project env f1 h kw s) as [[i1|e] s1] eqn:H1;
      apply project_no_print in H1 as (evs1 & Htr1 & Hf1).
    + destruct (project env f2 h kw s1) as [[i2|e] s2] eqn:Hp2;
        simplify_eq; by eapply H2.
    + simplify_eq. by eexists.
  - destruct (disk s !! f1) as [[hd d| |]|] eqn:E; simplify_eq/=;
      try (by exists [CallGetHeader f1]).
    destruct (project env f2 _ kw _) as [[i2|e] s2] eqn:Hp2; simplify_eq;
      (eapply H2; [| |exact Hp2]; [simpl; reflexivity|reflexivity]).
Qed.

(** X10: the message of the cut is printed at most once, as the last thing
    [match_fits] does, and only when it returns the images as they were
    obtained; never with a falsy [sigma_cut], and never when it raises. *)
Theorem match_fits_message f1 f2 header sc rh kw s :
  let run := match_fits env f1 f2 header sc rh kw s in
  let printed := List.filter is_print (events_since s run.2) in
  (printed = []
   ∨ (printed = [PrintCutFailed sc]
      ∧ last (events_since s run.2) = Some (PrintCutFailed sc)
      ∧ truthy sc = true
      ∧ ∃ hdr i1 i2 s1 r,
          resolve_images env f1 f2 header kw s = (Ok (hdr, i1, i2), s1)
          ∧ run.1 = Ok r ∧ returned_images r = (i1, i2)))
  ∧ (truthy sc = false → printed = [])
  ∧ (∀ e, run.1 = Raise e → printed = []).
Proof.
  intros run printed. unfold printed, run. clear run printed.
  rewrite match_fits_run.
  destruct (resolve_images env f1 f2 header kw s) as [[[[hdr i1] i2]|e] s1] eqn:Hres;
    apply resolve_images_no_print in Hres as Hev;
    destruct Hev as (evs & Htr & Hf).
  2: { simpl. rewrite (events_since_app _ _ _ Htr). by split_and!; [left|..]. }
  destruct (decide _).
  { simpl. rewrite (events_since_app _ _ _ Htr). by split_and!; [left|..]. }
  rewrite apply_sigma_cut_run.
  destruct (truthy sc) eqn:Hsc.
  2: { simpl. rewrite (events_since_app _ _ _ Htr). by split_and!; [left|..]. }
  destruct (times_sigma (std_of env i1) sc).
  2: { simpl. rewrite (events_since_app _ _ _ Htr). by split_and!; [left|..]. }
  destruct (times_sigma (std_of env i2) sc).
  2: { simpl. rewrite (events_since_app _ _ _ Htr). by split_and!; [left|..]. }
  destruct (overlap_is_zero _ _ _).
  2: { simpl. rewrite (events_since_app _ _ _ Htr). by split_and!; [left|..]. }
  simpl.
  assert (events_since s
            (mk_state (disk s1) (next_tmp s1) (open_tmps s1)
               (trace s1 ++ [PrintCutFailed sc]))
          = evs ++ [PrintCutFailed sc]) as ->.
  { apply events_since_app. simpl. by rewrite Htr, <- app_assoc. }
  rewrite List.filter_app, Hf. simpl. split_and!; [|done..].
  right. split_and!; [done|by rewrite last_snoc|done|].
  exists hdr, i1, i2, s1. eexists. split_and!; [done..|]. by destruct rh.
Qed.

(** X11: asking for the header changes nothing else: with and without
    [return_header] the outcome is the same exception or the same two
    images, and the disk, the temporary files and the events are the
    same. *)
Theorem match_fits_return_header_only f1 f2 header sc kw s :
  let with_h := match_fits env f1 f2 header sc true kw s in
  let without := match_fits env f1 f2 header sc false kw s in
  with_h.2 = without.2
  ∧ match with_h.1, without.1 with
    | Ok r, Ok r' =>
        returned_images r = returned_images r'
        ∧ arity r = 3 ∧ arity r' = 2
    | Raise e, Raise e' => e = e'
    | _, _ => False
    end.
Proof.
  intros with_h without. unfold with_h, without. clear with_h without.
  rewrite !match_fits_run.
  destruct (resolve_images env f1 f2 header kw s) as [[[[hdr i1] i2]|e] s1];
    [|done].
  destruct (decide _); [done|].
  by destruct (apply_sigma_cut env i1 i2 sc s1) as [[c|e] s2].
Qed.

End Match_facts.

(** ** More of the sigma cut *)

Section Cut_facts.

Variable env : Env.
Hypothesis laws : numpy_laws env.

(** X13: a NaN or an infinity anywhere in one of the two images (a blank
    pixel, say) makes its standard deviation NaN, and the cut is then always
    given up: the images come back as they were obtained, with the
    message. *)
Theorem match_fits_blank_pixel f1 f2 header sc rh kw s hdr i1 i2 s1 :
  resolve_images env f1 f2 header kw s = (Ok (hdr, i1, i2), s1) →
  shape i1 = shape i2 →
  valid_image i1 → valid_image i2 →
  truthy sc = true →
  overflows sc = false →
  Exists (λ x, Num.is_finite x = false) (data i1 ++ data i2) →
  ∃ r s', match_fits env f1 f2 header sc rh kw s = (Ok r, s')
          ∧ returned_images r = (i1, i2)
          ∧ events_since s1 s' = [PrintCutFailed sc].
Proof.
  intros Hres Hsh Hv1 Hv2 Hsc Hof Hex.
  destruct (times_sigma_ok (std_of env i1) sc Hof) as [t1 Ht1].
  destruct (times_sigma_ok (std_of env i2) sc Hof) as [t2 Ht2].
  eapply match_fits_fallback; [done..|].
  destruct (overlap_is_zero _ _ _) eqn:Hov; [done|].
  destruct (overlap_nonzero_finite env laws i1 i2 sc t1 t2 Hv1 Hv2 Ht1 Ht2 Hov)
    as [Hf1 Hf2].
  apply Exists_exists in Hex as (x & Hin & Hx).
  rewrite Forall_forall in Hf1, Hf2.
  apply elem_of_app in Hin as [Hin|Hin]; [apply Hf1 in Hin|apply Hf2 in Hin];
    congruence.
Qed.

(** X14: the cut is kept only if some position is significant in both
    images: when at no position both pixels are above the thresholds of their
    images, the cut is given up. *)
Theorem match_fits_no_common_region f1 f2 header sc rh kw s hdr i1 i2 s1
    t1 t2 :
  resolve_images env f1 f2 header kw s = (Ok (hdr, i1, i2), s1) →
  shape i1 = shape i2 →
  valid_image i1 → valid_image i2 →
  truthy sc = true →
  times_sigma (std_of env i1) sc = Ok t1 →
  times_sigma (std_of env i2) sc = Ok t2 →
  (∀ i x1 x2, data i1 !! i = Some x1 → data i2 !! i = Some x2 →
     above (dtype_of i1) t1 x1 && above (dtype_of i2) t2 x2 = false) →
  ∃ r s', match_fits env f1 f2 header sc rh kw s = (Ok r, s')
          ∧ returned_images r = (i1, i2)
          ∧ events_since s1 s' = [PrintCutFailed sc].
Proof.
  intros Hres Hsh Hv1 Hv2 Hsc Ht1 Ht2 Hno.
  eapply match_fits_fallback; [done..|]. by eapply nothing_kept.
Qed.

(** X15: after a cut at a positive level that is kept, no pixel of the
    two returned images is negative. *)
Theorem match_fits_cut_not_negative f1 f2 header sc rh kw s hdr i1 i2 s1
    t1 t2 :
  resolve_images env f1 f2 header kw s = (Ok (hdr, i1, i2), s1) →
  shape i1 = shape i2 →
  valid_image i1 → valid_image i2 →
  truthy sc = true →
  F64.gtb (level sc) F64.zero = true →
  times_sigma (std_of env i1) sc = Ok t1 →
  times_sigma (std_of env i2) sc = Ok t2 →
  overlap_is_zero env (threshold_at i1 t1) (threshold_at i2 t2) = false →
  ∃ r, match_fits env f1 f2 header sc rh kw s = (Ok r, s1)
       ∧ Forall (λ c, Num.is_negative c = false) (data (returned_images r).1)
       ∧ Forall (λ c, Num.is_negative c = false) (data (returned_images r).2).
Proof.
  intros Hres Hsh Hv1 Hv2 Hsc Hl Ht1 Ht2 Hov.
  destruct (match_fits_kept env f1 f2 header sc rh kw s hdr i1 i2 s1 t1 t2
              Hres Hsh Hsc Ht1 Ht2 Hov) as (r & Hrun & Hr).
  exists r. split; [done|]. rewrite Hr. cbn [fst snd].
  split; rewrite threshold_data; apply Forall_fmap, Forall_forall;
    intros x Hin; simpl; by eapply mask_pixel_not_negative.
Qed.

End Cut_facts.

(** ** More runs *)

Section More_examples.

Import Demo.

Lemma match_fits_temp_files_closed_witness :
  let s' := (match_fits env_both "a.fits" "b.fits" (Some hdr_t)
               (SigmaBool false) false kw0 s0).2 in
  open_tmps s' = open_tmps s0 ∧ next_tmp s' = next_tmp s0 + 4.
Proof.
  intros s'.
  apply (match_fits_temp_files_closed env_both "a.fits" "b.fits" (Some hdr_t)
           (SigmaBool false) false kw0 s0 (Pair (squeeze img_a) img_b) s').
  - constructor.
  - vm_compute. reflexivity.
Defined.

(** Montage fails on both files: the run stops at the first one, with its
    two temporary files left open. *)
Lemma match_fits_open_temp_files_witness :
  let s' := (match_fits env_broken "a.fits" "b.fits" (Some hdr_t) (SigmaInt 1)
               false kw0 s0).2 in
  wf_state s'
  ∧ ∃ new, open_tmps s' = new ++ open_tmps s0
           ∧ Forall (λ i, next_tmp s0 ≤ i ∧ i < next_tmp s') new.
Proof.
  apply (match_fits_open_temp_files env_broken "a.fits" "b.fits" (Some hdr_t)
           (SigmaInt 1) false kw0 s0).
  constructor.
Defined.

Lemma match_fits_reads_only_witness :
  let s' := (match_fits env_hcongrid "a.fits" "b.fits" (Some hdr_t)
               (SigmaInt 1) true kw0 s0).2 in
  disk s' = disk s0 ∧ next_tmp s' = next_tmp s0 ∧ open_tmps s' = open_tmps s0.
Proof.
  apply (match_fits_reads_only env_hcongrid "a.fits" "b.fits" (Some hdr_t)
           (SigmaInt 1) true kw0 s0).
  reflexivity.
Defined.

Lemma project_to_header_montage_call_witness :
  let run := project_to_header env_both "a.fits" hdr_t true false [] s0 in
  events_since s0 run.2
  = [CallProject "a.fits" hdr_t true false []; CallToTxtFile hdr_t "/tmp/tmp0";
     CallMontage "a.fits" "/tmp/tmp1" "/tmp/tmp0" true false;
     CallGetData "/tmp/tmp1"]
  ∧ ∃ d1 d2 hdr,
      toTxtFile env_both hdr_t "/tmp/tmp0" (<["/tmp/tmp0" := EmptyFile]> (disk s0))
      = inr d1
      ∧ montage_reproject env_both "a.fits" "/tmp/tmp1" "/tmp/tmp0" true false
          (<["/tmp/tmp1" := EmptyFile]> d1) = inr d2
      ∧ d2 !! "/tmp/tmp1" = Some (FitsFile hdr (squeeze img_a))
      ∧ disk run.2 = delete "/tmp/tmp0" (delete "/tmp/tmp1" d2).
Proof.
  intros run.
  apply (proj2 (project_to_header_montage_call env_both "a.fits" hdr_t true
                  false [] s0 run.1 run.2 (surjective_pairing run))
           (squeeze img_a)).
  - reflexivity.
  - vm_compute. reflexivity.
Defined.

Lemma project_to_header_montage_failure_witness :
  let s' := (project_to_header env_broken "a.fits" hdr_t true true [] s0).2 in
  let hname := tmp_name env_broken (next_tmp s0) in
  let oname := tmp_name env_broken (S (next_tmp s0)) in
  (∃ m, LibraryError "MontageError" = LibraryError m
        ∧ toTxtFile env_broken hdr_t hname (<[hname := EmptyFile]> (disk s0))
          = inl m
        ∧ events_since s0 s'
          = [CallProject "a.fits" hdr_t true true []; CallToTxtFile hdr_t hname])
  ∨ (∃ m d1, LibraryError "MontageError" = LibraryError m
        ∧ toTxtFile env_broken hdr_t hname (<[hname := EmptyFile]> (disk s0))
          = inr d1
        ∧ montage_reproject env_broken "a.fits" oname hname true true
            (<[oname := EmptyFile]> d1) = inl m
        ∧ events_since s0 s'
          = [CallProject "a.fits" hdr_t true true []; CallToTxtFile hdr_t hname;
             CallMontage "a.fits" oname hname true true])
  ∨ (∃ d1 d2, LibraryError "MontageError" = LibraryError "IOError"
        ∧ toTxtFile env_broken hdr_t hname (<[hname := EmptyFile]> (disk s0))
          = inr d1
        ∧ montage_reproject env_broken "a.fits" oname hname true true
            (<[oname := EmptyFile]> d1) = inr d2
        ∧ (∀ hdr img, d2 !! oname ≠ Some (FitsFile hdr img))
        ∧ events_since s0 s'
          = [CallProject "a.fits" hdr_t true true []; CallToTxtFile hdr_t hname;
             CallMontage "a.fits" oname hname true true; CallGetData oname]).
Proof.
  intros s'.
  apply (project_to_header_montage_failure env_broken "a.fits" hdr_t true true
           [] s0 (LibraryError "MontageError") s').
  - reflexivity.
  - vm_compute. reflexivity.
Defined.

Lemma project_to_header_unreadable_witness :
  project_to_header env_hcongrid "z.fits" hdr_t true true [] s0
  = (Raise (LibraryError "IOError"),
     mk_state (disk s0) (next_tmp s0) (open_tmps s0)
       (trace s0 ++ [CallProject "z.fits" hdr_t true true [];
                     CallGetData "z.fits"])).
Proof.
  apply (project_to_header_unreadable env_hcongrid "z.fits" hdr_t true true
           [] s0).
  - reflexivity.
  - reflexivity.
  - intros hd d. vm_compute. discriminate.
Defined.

Lemma match_fits_no_backend_witness :
  (match_fits env_montage "a.fits" "b.fits" None (SigmaInt 1) false kw_h s0).1
  = Raise (UnboundLocalError "image").
Proof.
  apply (match_fits_no_backend env_montage "a.fits" "b.fits" None (SigmaInt 1)
           false kw_h s0); reflexivity.
Defined.

Lemma match_fits_first_projection_fails_witness :
  let s1 := (project env_broken "a.fits" hdr_t kw0 s0).2 in
  match_fits env_broken "a.fits" "b.fits" (Some hdr_t) (SigmaInt 1) true kw0 s0
  = (Raise (LibraryError "MontageError"), s1)
  ∧ project_calls (events_since s0 s1)
    = [CallProject "a.fits" hdr_t true true []].
Proof.
  intros s1.
  apply (match_fits_first_projection_fails env_broken "a.fits" "b.fits" hdr_t
           (SigmaInt 1) true kw0 s0 (LibraryError "MontageError") s1).
  vm_compute. reflexivity.
Defined.

Lemma match_fits_unreadable_file1_witness :
  match_fits env_both "z.fits" "b.fits" None (SigmaInt 1) false kw0 s0
  = (Raise (LibraryError "IOError"),
     mk_state (disk s0) (next_tmp s0) (open_tmps s0)
       (trace s0 ++ [CallGetHeader "z.fits"])).
Proof.
  apply (match_fits_unreadable_file1 env_both "z.fits" "b.fits" (SigmaInt 1)
           false kw0 s0).
  intros hd d. vm_compute. discriminate.
Defined.

(** [k.fits] has a NaN in it. *)
Lemma match_fits_blank_pixel_witness :
  ∃ r s', match_fits env_hcongrid "k.fits" "b.fits" None (SigmaInt 1) false
            kw0 s_k = (Ok r, s')
          ∧ returned_images r = (img_k, img_b)
          ∧ events_since
              (resolve_images env_hcongrid "k.fits" "b.fits" None kw0 s_k).2 s'
            = [PrintCutFailed (SigmaInt 1)].
Proof.
  apply (match_fits_blank_pixel env_hcongrid (Numpy_laws _ _ _ _ _ _ _)
           "k.fits" "b.fits" None (SigmaInt 1) false kw0 s_k
           (drop_history hdr_b) img_k img_b).
  - vm_compute. reflexivity.
  - reflexivity.
  - repeat constructor.
  - repeat constructor.
  - reflexivity.
  - vm_compute. reflexivity.
  - apply Exists_cons_tl, Exists_cons_hd. reflexivity.
Defined.

(** The bright pixel of [c.fits] is the last one, that of [d.fits] the first
    one. *)
Lemma match_fits_no_common_region_witness :
  ∃ r s', match_fits env_hcongrid "c.fits" "d.fits" None (SigmaInt 1) true
            kw0 s0 = (Ok r, s')
          ∧ returned_images r = (img_c, img_d)
          ∧ events_since
              (resolve_images env_hcongrid "c.fits" "d.fits" None kw0 s0).2 s'
            = [PrintCutFailed (SigmaInt 1)].
Proof.
  apply (match_fits_no_common_region env_hcongrid (Numpy_laws _ _ _ _ _ _ _)
           "c.fits" "d.fits" None (SigmaInt 1) true kw0 s0
           (drop_history hdr_b) img_c img_d
           (resolve_images env_hcongrid "c.fits" "d.fits" None kw0 s0).2
           (mk_scalar B64
              (Flt.mul B64 (sc_val (std_of env_hcongrid img_c))
                 (level (SigmaInt 1))))
           (mk_scalar B64
              (Flt.mul B64 (sc_val (std_of env_hcongrid img_d))
                 (level (SigmaInt 1))))).
  - vm_compute. reflexivity.
  - reflexivity.
  - repeat constructor.
  - repeat constructor.
  - reflexivity.
  - vm_compute. reflexivity.
  - vm_compute. reflexivity.
  - intros [|[|[|[|i]]]] x1 x2 H1 H2; vm_compute in H1, H2; simplify_eq;
      vm_compute; reflexivity.
Defined.

(** A cut of an image of floats and an image of doubles, kept. *)
Lemma match_fits_cut_not_negative_witness :
  ∃ r, match_fits env_hcongrid "g.fits" "b.fits" None (SigmaInt 1) false kw0 s_k
       = (Ok r, (resolve_images env_hcongrid "g.fits" "b.fits" None kw0 s_k).2)
       ∧ Forall (λ c, Num.is_negative c = false) (data (returned_images r).1)
       ∧ Forall (λ c, Num.is_negative c = false) (data (returned_images r).2).
Proof.
  apply (match_fits_cut_not_negative env_hcongrid (Numpy_laws _ _ _ _ _ _ _)
           "g.fits" "b.fits" None (SigmaInt 1) false kw0 s_k
           (drop_history hdr_b) img_g img_b
           (resolve_images env_hcongrid "g.fits" "b.fits" None kw0 s_k).2
           (mk_scalar B64
              (Flt.mul B64 (Flt.cast B32 B64 (sc_val (std_of env_hcongrid img_g)))
                 (level (SigmaInt 1))))
           (mk_scalar B64
              (Flt.mul B64 (sc_val (std_of env_hcongrid img_b))
                 (level (SigmaInt 1))))).
  - vm_compute. reflexivity.
  - reflexivity.
  - repeat constructor.
  - repeat constructor.
  - reflexivity.
  - reflexivity.
  - vm_compute. reflexivity.
  - vm_compute. reflexivity.
  - vm_compute. reflexivity.
Defined.

End More_examples.
